(** * CommandInstance: the lifecycle state machine of a libweave command

    A shallow embedding of [libweave/src/commands/command_instance.cc]
    together with the public enum of [libweave/include/weave/command.h].

    The C++ methods mutate the instance, append to the caller's error chain
    and call out to observers and to the owning queue.  They are embedded
    here as computations of a small state monad over the triple
    (instance, error chain, calls made so far).

    The handler of [examples/daemon/lock/lock.cc], a caller of these
    methods, and [WriteUnicodeCharacter] of the string utilities are embedded
    after them. *)

From stdpp Require Import base option strings gmap list.

(** ** JSON documents ([base::Value]) *)

(** The value kinds of [base::Value] that the code distinguishes: the
    dictionary stores its children by key. *)
#[warnings="-register-all"]
Inductive Value : Type :=
| NullValue
| BooleanValue (b : bool)
| IntegerValue (n : Z)
| DoubleValue (bits : Z)
| StringValue (s : string)
| DictionaryValue (fields : gmap string Value)
| ListValue (items : list Value).

(** [base::DictionaryValue], the payload of a dictionary value. *)
Abbreviation Dictionary := (gmap string Value).

(** [Value::GetAsDictionary]: succeeds on dictionaries only. *)
Definition GetAsDictionary (v : Value) : option Dictionary :=
  match v with
  | DictionaryValue fields => Some fields
  | _ => None
  end.

(** [DictionaryValue::Get] for a key without a path separator. *)
Definition Get (key : string) (json : Dictionary) : option Value :=
  json !! key.

(** [DictionaryValue::GetString]: the key must be present and hold a string. *)
Definition GetString (key : string) (json : Dictionary) : option string :=
  match Get key json with
  | Some (StringValue s) => Some s
  | _ => None
  end.

(** [DictionaryValue::Set] and [SetString], again for plain keys. *)
Definition Set_ (key : string) (v : Value) (json : Dictionary)
  : Dictionary := <[key := v]> json.

Definition SetString (key : string) (s : string) (json : Dictionary)
  : Dictionary := Set_ key (StringValue s) json.

(** ** Errors ([weave::Error], [weave::ErrorPtr]) *)

(** An error carries a domain, a code, a message and the error it wraps.
    The source location recorded by [FROM_HERE] is left out. *)
#[warnings="-register-all"]
Inductive Error : Type :=
| MakeError (domain code message : string) (inner : option Error).

(** [ErrorPtr] is an owning pointer, null when no error was reported. *)
Abbreviation ErrorPtr := (option Error).

Definition GetDomain (e : Error) : string := let 'MakeError d _ _ _ := e in d.
Definition GetCode (e : Error) : string := let 'MakeError _ c _ _ := e in c.
Definition GetMessage (e : Error) : string := let 'MakeError _ _ m _ := e in m.
Definition GetInnerError (e : Error) : ErrorPtr := let 'MakeError _ _ _ i := e in i.

(** Modelled from the spec: [weave/error.h] is not among the sources.
    Errors are returned to the immediate caller and never dropped, so
    [Error::AddTo] puts a new error in the caller's slot; the error that was
    there before becomes its inner error. *)
Definition AddTo (domain code message : string) (error : ErrorPtr) : ErrorPtr :=
  Some (MakeError domain code message error).

(** Modelled from the spec: [Error::Clone] of [weave/error.h] is not among the
    sources.  set_error "records err": the copy is made field by field, inner
    errors included. *)
Fixpoint Clone (e : Error) : Error :=
  match e with
  | MakeError d c m inner =>
      MakeError d c m (match inner with
                       | Some i => Some (Clone i)
                       | None => None
                       end)
  end.


(** ** Status and origin ([weave/command.h]) *)

Inductive CommandStatus : Type :=
| kQueued
| kInProgress
| kPaused
| kError
| kDone
| kCancelled
| kAborted
| kExpired.

Inductive CommandOrigin : Type := kLocal | kCloud.

#[global] Instance CommandStatus_eq_dec : EqDecision CommandStatus.
Proof. solve_decision. Defined.

#[global] Instance CommandOrigin_eq_dec : EqDecision CommandOrigin.
Proof. solve_decision. Defined.

(** The enum-to-string tables of [command_instance.cc]. *)
Definition kMapStatus : list (CommandStatus * string) :=
  [ (kQueued, "queued");
    (kInProgress, "inProgress");
    (kPaused, "paused");
    (kError, "error");
    (kDone, "done");
    (kCancelled, "cancelled");
    (kAborted, "aborted");
    (kExpired, "expired") ].

Definition kMapOrigin : list (CommandOrigin * string) :=
  [ (kLocal, "local"); (kCloud, "cloud") ].

(** [EnumToStringMap<T>::FindNameById]: the first entry of the table with the
    given id; an id missing from the table has the empty name. *)
Fixpoint FindNameById {T} `{EqDecision T} (table : list (T * string)) (id : T)
  : string :=
  match table with
  | [] => ""
  | (k, name) :: rest => if decide (k = id) then name else FindNameById rest id
  end.

Definition EnumToString (status : CommandStatus) : string :=
  FindNameById kMapStatus status.

(** ** Constants and helpers declared outside the listed sources *)

(** Modelled from the spec: [schema_constants.cc] is not among the sources.
    The attribute names are the field names of the wire shapes of the spec:
    request [{id?, name, parameters?}], response
    [{id, name, parameters, progress, results, state, error?}]. *)
Module attributes.
Definition kCommand_Id : string := "id".
Definition kCommand_Name : string := "name".
Definition kCommand_Parameters : string := "parameters".
Definition kCommand_Progress : string := "progress".
Definition kCommand_Results : string := "results".
Definition kCommand_State : string := "state".
Definition kCommand_Error : string := "error".
End attributes.
Import attributes.

(** The error domains and codes of [errors::commands] and [errors::json]
    ([schema_constants.cc], [json_error_codes.cc]); their spelling is not
    among the sources, so the development is parametric in them. *)
Class ErrorCodes : Type := {
  commands_kDomain : string;
  kCommandDestroyed : string;
  kInvalidState : string;
  kPropertyMissing : string;
  kInvalidCommandName : string;
  kCommandFailed : string;
  json_kDomain : string;
  kObjectExpected : string;
}.

(** The typed-value layer ([schema_utils.h], [prop_values.h], [utils.h]):
    - [ValueMap] with its structural comparison and its default (empty) value;
    - [ObjectSchema], what a command definition declares for an object;
    - [TypedValueFromJson json schema error]: the typed object, or on failure
      the error chain the validator leaves in the caller's slot;
    - [TypedValueToJson] and [ErrorInfoToJson], the serialisers. *)
Class SchemaUtils : Type := {
  ValueMap : Type;
  ValueMap_eq_dec :: EqDecision ValueMap;
  ValueMap_default : ValueMap;
  ObjectSchema : Type;
  TypedValueFromJson : Dictionary -> ObjectSchema -> ErrorPtr -> ValueMap + Error;
  TypedValueToJson : ValueMap -> Dictionary;
  ErrorInfoToJson : Error -> Dictionary;
}.

(** ** A generic state monad *)

Definition State (S A : Type) : Type := S -> A * S.

#[global] Instance State_ret {S} : MRet (State S) := fun A a s => (a, s).
#[global] Instance State_bind {S} : MBind (State S) :=
  fun A B f m s => let '(a, s') := m s in f a s'.

Definition gets {S A} (f : S -> A) : State S A := fun s => (f s, s).
Definition modify {S} (f : S -> S) : State S unit := fun s => (tt, f s).

Section CommandInstance.
Context `{ErrorCodes} `{SchemaUtils}.

(** Modelled from the spec: [command_definition.h] is not among the sources.
    A definition declares three schemas (parameters, progress, results); the
    name and the minimal role play no part in the instance. *)
Record CommandDefinition : Type := {
  GetParameters : ObjectSchema;
  GetProgress : ObjectSchema;
  GetResults : ObjectSchema;
}.

(** Modelled from the spec: [command_dictionary.h] is not among the sources.
    The dictionary maps a fully-qualified command name to its definition;
    lookup is by exact name. *)
Definition CommandDictionary : Type := gmap string CommandDefinition.

Definition FindCommand (dictionary : CommandDictionary) (name : string)
  : option CommandDefinition := dictionary !! name.

(** Observers and queues are referred to by pointer; the calls made on them
    are recorded. *)
Definition Observer : Type := nat.
Definition CommandQueue : Type := nat.

Inductive Notification : Type :=
| OnStatusChanged
| OnProgressChanged
| OnResultsChanged
| OnCommandDestroyed.

Inductive Call : Type :=
| Notify (observer : Observer) (what : Notification)
| DelayedRemove (queue : CommandQueue) (id : string).

(** The data members of [CommandInstance]. *)
Record CommandInstance : Type := {
  id_ : string;
  name_ : string;
  origin_ : CommandOrigin;
  command_definition_ : option CommandDefinition;
  parameters_ : ValueMap;
  progress_ : ValueMap;
  results_ : ValueMap;
  status_ : CommandStatus;
  error_ : ErrorPtr;
  observers_ : list Observer;
  queue_ : option CommandQueue;
}.

(** The constructor: every member not listed keeps its default. *)
Definition new_CommandInstance (name : string) (origin : CommandOrigin)
    (command_definition : CommandDefinition) (parameters : ValueMap)
  : CommandInstance :=
  {| id_ := "";
     name_ := name;
     origin_ := origin;
     command_definition_ := Some command_definition;
     parameters_ := parameters;
     progress_ := ValueMap_default;
     results_ := ValueMap_default;
     status_ := kQueued;
     error_ := None;
     observers_ := [];
     queue_ := None |}.

Definition SetID (id : string) (c : CommandInstance) : CommandInstance :=
  {| id_ := id; name_ := name_ c; origin_ := origin_ c;
     command_definition_ := command_definition_ c;
     parameters_ := parameters_ c; progress_ := progress_ c;
     results_ := results_ c; status_ := status_ c; error_ := error_ c;
     observers_ := observers_ c; queue_ := queue_ c |}.

Definition SetCommandQueue (queue : option CommandQueue) (c : CommandInstance)
  : CommandInstance :=
  {| id_ := id_ c; name_ := name_ c; origin_ := origin_ c;
     command_definition_ := command_definition_ c;
     parameters_ := parameters_ c; progress_ := progress_ c;
     results_ := results_ c; status_ := status_ c; error_ := error_ c;
     observers_ := observers_ c; queue_ := queue |}.

Definition GetID (c : CommandInstance) : string := id_ c.
Definition GetName (c : CommandInstance) : string := name_ c.
Definition GetStatus (c : CommandInstance) : CommandStatus := status_ c.
Definition GetOrigin (c : CommandInstance) : CommandOrigin := origin_ c.
Definition GetError (c : CommandInstance) : ErrorPtr := error_ c.

(** Assignments to single members. *)
Definition with_status (status : CommandStatus) (c : CommandInstance) :=
  {| id_ := id_ c; name_ := name_ c; origin_ := origin_ c;
     command_definition_ := command_definition_ c;
     parameters_ := parameters_ c; progress_ := progress_ c;
     results_ := results_ c; status_ := status; error_ := error_ c;
     observers_ := observers_ c; queue_ := queue_ c |}.

Definition with_progress (obj : ValueMap) (c : CommandInstance) :=
  {| id_ := id_ c; name_ := name_ c; origin_ := origin_ c;
     command_definition_ := command_definition_ c;
     parameters_ := parameters_ c; progress_ := obj;
     results_ := results_ c; status_ := status_ c; error_ := error_ c;
     observers_ := observers_ c; queue_ := queue_ c |}.

Definition with_results (obj : ValueMap) (c : CommandInstance) :=
  {| id_ := id_ c; name_ := name_ c; origin_ := origin_ c;
     command_definition_ := command_definition_ c;
     parameters_ := parameters_ c; progress_ := progress_ c;
     results_ := obj; status_ := status_ c; error_ := error_ c;
     observers_ := observers_ c; queue_ := queue_ c |}.

Definition with_error (e : ErrorPtr) (c : CommandInstance) :=
  {| id_ := id_ c; name_ := name_ c; origin_ := origin_ c;
     command_definition_ := command_definition_ c;
     parameters_ := parameters_ c; progress_ := progress_ c;
     results_ := results_ c; status_ := status_ c; error_ := e;
     observers_ := observers_ c; queue_ := queue_ c |}.

(** ** The methods *)

(** What a method call can touch: the instance it is called on, the error
    slot passed by the caller ([ErrorPtr* error]) and the outside world, seen
    through the calls made on observers and on the queue (oldest first).
    The caller is taken to pass a slot; with a null [error] pointer the
    methods behave the same and the report is lost. *)
Record Frame : Type := {
  this : CommandInstance;
  error : ErrorPtr;
  calls : list Call;
}.

Definition Method (A : Type) : Type := State Frame A.

Definition update_this (f : CommandInstance -> CommandInstance) : Method unit :=
  modify (fun s => {| this := f (this s); error := error s; calls := calls s |}).

Definition update_error (f : ErrorPtr -> ErrorPtr) : Method unit :=
  modify (fun s => {| this := this s; error := f (error s); calls := calls s |}).

Definition emit (new : list Call) : Method unit :=
  modify (fun s => {| this := this s; error := error s; calls := calls s ++ new |}).

(** [FOR_EACH_OBSERVER(Observer, observers_, what)]. *)
Definition FOR_EACH_OBSERVER (what : Notification) : Method unit :=
  observers ← gets (fun s => observers_ (this s));
  emit ((fun o => Notify o what) <$> observers).

Definition ReportDestroyedError : Method bool :=
  update_error (AddTo commands_kDomain kCommandDestroyed
                      "Command has been destroyed");;
  mret false.

Definition InvalidStateMessage (from to : CommandStatus) : string :=
  "State switch impossible: '" +:+ EnumToString from +:+ "' -> '"
    +:+ EnumToString to +:+ "'".

Definition ReportInvalidStateTransition (from to : CommandStatus) : Method bool :=
  update_error (AddTo commands_kDomain kInvalidState (InvalidStateMessage from to));;
  mret false.

Definition SetStatus (status : CommandStatus) : Method bool :=
  current ← gets (fun s => status_ (this s));
  if decide (status = current) then mret true
  else if decide (status = kQueued) then
    ReportInvalidStateTransition current status
  else
    match current with
    | kDone | kCancelled | kAborted | kExpired =>
        ReportInvalidStateTransition current status
    | kQueued | kInProgress | kPaused | kError =>
        update_this (with_status status);;
        FOR_EACH_OBSERVER OnStatusChanged;;
        mret true
    end.

Definition RemoveFromQueue : Method unit :=
  c ← gets this;
  match queue_ c with
  | Some queue => emit [DelayedRemove queue (GetID c)]
  | None => mret tt
  end.

(** [TypedValueFromJson] called with the caller's error slot. *)
Definition TypedValueFromJson_at (json : Dictionary) (schema : ObjectSchema)
  : Method (option ValueMap) :=
  fun s =>
    match TypedValueFromJson json schema (error s) with
    | inl obj => (Some obj, s)
    | inr e => (None, {| this := this s; error := Some e; calls := calls s |})
    end.

Definition SetProgress (progress : Dictionary) : Method bool :=
  definition ← gets (fun s => command_definition_ (this s));
  match definition with
  | None => ReportDestroyedError
  | Some definition =>
      parsed ← TypedValueFromJson_at progress (GetProgress definition);
      match parsed with
      | None => mret false
      | Some obj =>
          (* Change status even if progress unchanged, e.g. 0% -> 0%. *)
          changed ← SetStatus kInProgress;
          if negb changed then mret false
          else
            old ← gets (fun s => progress_ (this s));
            (if decide (obj <> old) then
               update_this (with_progress obj);;
               FOR_EACH_OBSERVER OnProgressChanged
             else mret tt);;
            mret true
      end
  end.

Definition SetResults (results : Dictionary) : Method bool :=
  definition ← gets (fun s => command_definition_ (this s));
  match definition with
  | None => ReportDestroyedError
  | Some definition =>
      parsed ← TypedValueFromJson_at results (GetResults definition);
      match parsed with
      | None => mret false
      | Some obj =>
          old ← gets (fun s => results_ (this s));
          (if decide (obj <> old) then
             update_this (with_results obj);;
             FOR_EACH_OBSERVER OnResultsChanged
           else mret tt);;
          (* Change status even if result is unchanged. *)
          result ← SetStatus kDone;
          RemoveFromQueue;;
          mret result
      end
  end.

Definition SetError (command_error : ErrorPtr) : Method bool :=
  update_this (with_error (Clone <$> command_error));;
  SetStatus kError.

Definition Pause : Method bool := SetStatus kPaused.

Definition Abort (command_error : ErrorPtr) : Method bool :=
  update_this (with_error (Clone <$> command_error));;
  result ← SetStatus kAborted;
  RemoveFromQueue;;
  mret result.

Definition Cancel : Method bool :=
  result ← SetStatus kCancelled;
  RemoveFromQueue;;
  mret result.

(** ** Construction from a request document *)

(** The anonymous-namespace helper [GetCommandParameters].  It returns the
    validated parameters (null on failure) next to the caller's error slot. *)
Definition GetCommandParameters (json : Dictionary)
    (command_def : CommandDefinition) (error : ErrorPtr)
  : option ValueMap * ErrorPtr :=
  let no_params : Dictionary := ∅ in
  let params : Dictionary + ErrorPtr :=
    match Get kCommand_Parameters json with
    | Some params_value =>
        (* Make sure the "parameters" property is actually an object. *)
        match GetAsDictionary params_value with
        | Some params => inl params
        | None =>
            inr (AddTo json_kDomain kObjectExpected
                   ("Property '" +:+ kCommand_Parameters
                      +:+ "' must be a JSON object") error)
        end
    | None =>
        (* "parameters" are not specified. Assume empty param list. *)
        inl no_params
    end in
  match params with
  | inr error' => (None, error')
  | inl params =>
      match TypedValueFromJson params (GetParameters command_def) error with
      | inl parameters => (Some parameters, error)
      | inr e => (None, Some e)
      end
  end.

(** What [FromJson] hands back: the instance (null on failure), the string
    written through [command_id], and the caller's error slot. *)
Record FromJsonResult : Type := {
  instance : option CommandInstance;
  command_id : string;
  error_out : ErrorPtr;
}.

Definition FromJson (value : Value) (origin : CommandOrigin)
    (dictionary : CommandDictionary) (error : ErrorPtr) : FromJsonResult :=
  (* Get the command JSON object from the value. *)
  match GetAsDictionary value with
  | None =>
      {| instance := None;
         command_id := "";
         error_out := AddTo json_kDomain kObjectExpected
                        "Command instance is not a JSON object" error |}
  | Some json =>
      (* Get the command ID from 'id' property. *)
      let command_id := default "" (GetString kCommand_Id json) in
      (* Get the command name from 'name' property. *)
      match GetString kCommand_Name json with
      | None =>
          {| instance := None;
             command_id := command_id;
             error_out := AddTo commands_kDomain kPropertyMissing
                            "Command name is missing" error |}
      | Some command_name =>
          (* Make sure we know how to handle the command with this name. *)
          match FindCommand dictionary command_name with
          | None =>
              {| instance := None;
                 command_id := command_id;
                 error_out := AddTo commands_kDomain kInvalidCommandName
                                ("Unknown command received: " +:+ command_name)
                                error |}
          | Some command_def =>
              match GetCommandParameters json command_def error with
              | (None, error') =>
                  {| instance := None;
                     command_id := command_id;
                     error_out := AddTo commands_kDomain kCommandFailed
                                    ("Failed to validate command '"
                                       +:+ command_name +:+ "'") error' |}
              | (Some parameters, error') =>
                  let new :=
                    new_CommandInstance command_name origin command_def
                                        parameters in
                  {| instance :=
                       Some (if decide (command_id = "") then new
                             else SetID command_id new);
                     command_id := command_id;
                     error_out := error' |}
              end
          end
      end
  end.

(** ** Serialisation *)

Definition ToJson (c : CommandInstance) : Dictionary :=
  let json : Dictionary := ∅ in
  let json := SetString kCommand_Id (id_ c) json in
  let json := SetString kCommand_Name (name_ c) json in
  let json := Set_ kCommand_Parameters
                (DictionaryValue (TypedValueToJson (parameters_ c))) json in
  let json := Set_ kCommand_Progress
                (DictionaryValue (TypedValueToJson (progress_ c))) json in
  let json := Set_ kCommand_Results
                (DictionaryValue (TypedValueToJson (results_ c))) json in
  let json := SetString kCommand_State (EnumToString (status_ c)) json in
  match error_ c with
  | Some e => Set_ kCommand_Error (DictionaryValue (ErrorInfoToJson e)) json
  | None => json
  end.

(** ** Vocabulary of the specification *)

(** The terminal statuses: Done, Cancelled, Aborted, Expired. *)
Definition IsTerminal (status : CommandStatus) : bool :=
  match status with
  | kDone | kCancelled | kAborted | kExpired => true
  | kQueued | kInProgress | kPaused | kError => false
  end.

(** The error slot after an InvalidStateTransition(from, to) was reported. *)
Definition InvalidStateTransition (from to : CommandStatus) (error : ErrorPtr)
  : ErrorPtr :=
  AddTo commands_kDomain kInvalidState (InvalidStateMessage from to) error.

(** One notification per registered observer, in registration order. *)
Definition notifications (what : Notification) (c : CommandInstance)
  : list Call :=
  (fun o => Notify o what) <$> observers_ c.

(** The removal request sent to the owning queue, if there is one. *)
Definition removal (c : CommandInstance) : list Call :=
  match queue_ c with
  | Some queue => [DelayedRemove queue (id_ c)]
  | None => []
  end.

(** The best-effort command id of a request: the string under ['id'] of an
    object, the empty string when there is none. *)
Definition best_effort_id (value : Value) : string :=
  match value with
  | DictionaryValue json =>
      match json !! "id" with
      | Some (StringValue id) => id
      | _ => ""
      end
  | _ => ""
  end.

(** The four reasons for which a request is turned down: the top-level value
    is not an object, the name is missing, the name is unknown to the
    dictionary, the parameters do not pass [GetCommandParameters]. *)
Inductive Defect (dictionary : CommandDictionary) (error : ErrorPtr)
  : Value -> Prop :=
| NotAnObject value :
    GetAsDictionary value = None ->
    Defect dictionary error value
| NameMissing json :
    GetString kCommand_Name json = None ->
    Defect dictionary error (DictionaryValue json)
| NameUnknown json name :
    GetString kCommand_Name json = Some name ->
    FindCommand dictionary name = None ->
    Defect dictionary error (DictionaryValue json)
| ParametersInvalid json name definition error' :
    GetString kCommand_Name json = Some name ->
    FindCommand dictionary name = Some definition ->
    GetCommandParameters json definition error = (None, error') ->
    Defect dictionary error (DictionaryValue json).

(** The state names of the status document. *)
Definition state_names : list string :=
  [ "queued"; "inProgress"; "paused"; "error";
    "done"; "cancelled"; "aborted"; "expired" ].

(** The frame in which the stored error was replaced by [e]. *)
Definition error_recorded (e : ErrorPtr) (s : Frame) : Frame :=
  {| this := with_error e (this s); error := error s; calls := calls s |}.

(** The frame left by a call that was refused with
    InvalidStateTransition(from, to): nothing but the error slot changed. *)
Definition refused (to : CommandStatus) (s : Frame) : Frame :=
  {| this := this s;
     error := InvalidStateTransition (status_ (this s)) to (error s);
     calls := calls s |}.

(** The public calls that drive the state machine, [SetStatus] itself
    included. *)
Inductive Operation : Type :=
| DoSetStatus (to : CommandStatus)
| DoSetProgress (progress : Dictionary)
| DoSetResults (results : Dictionary)
| DoSetError (command_error : ErrorPtr)
| DoPause
| DoAbort (command_error : ErrorPtr)
| DoCancel.

Definition run (op : Operation) : Method bool :=
  match op with
  | DoSetStatus to => SetStatus to
  | DoSetProgress progress => SetProgress progress
  | DoSetResults results => SetResults results
  | DoSetError command_error => SetError command_error
  | DoPause => Pause
  | DoAbort command_error => Abort command_error
  | DoCancel => Cancel
  end.

(** The outcome of validating [json] against the schema [pick] selects from
    the instance's definition; nothing when the definition is gone. *)
Definition validated (pick : CommandDefinition -> ObjectSchema)
    (json : Dictionary) (s : Frame) : option (ValueMap + Error) :=
  definition ← command_definition_ (this s);
  Some (TypedValueFromJson json (pick definition) (error s)).

(** The status an operation asks [SetStatus] for.  [SetProgress] and
    [SetResults] get that far only with a document that validates. *)
Definition attempts (op : Operation) (s : Frame) : option CommandStatus :=
  match op with
  | DoSetStatus to => Some to
  | DoSetProgress progress =>
      match validated GetProgress progress s with
      | Some (inl _) => Some kInProgress
      | _ => None
      end
  | DoSetResults results =>
      match validated GetResults results s with
      | Some (inl _) => Some kDone
      | _ => None
      end
  | DoSetError _ => Some kError
  | DoPause => Some kPaused
  | DoAbort _ => Some kAborted
  | DoCancel => Some kCancelled
  end.

(** A call was rejected with InvalidStateTransition(from, to), and the
    status and the progress are as they were in [s]. *)
Definition rejected (to : CommandStatus) (s : Frame) (r : bool * Frame) : Prop :=
  r.1 = false
  /\ error r.2 = InvalidStateTransition (status_ (this s)) to (error s)
  /\ status_ (this r.2) = status_ (this s)
  /\ progress_ (this r.2) = progress_ (this s).

(** The results an operation leaves behind when its status change is
    refused: [SetResults] has stored the validated document by then, every
    other operation leaves the results alone. *)
Definition results_after_refusal (op : Operation) (s : Frame) : ValueMap :=
  match op with
  | DoSetResults results =>
      match validated GetResults results s with
      | Some (inl obj) => obj
      | _ => results_ (this s)
      end
  | _ => results_ (this s)
  end.

(** The frame after [obj] was stored as progress (resp. results) and the
    observers were told. *)
Definition progress_replaced (obj : ValueMap) (s : Frame) : Frame :=
  {| this := with_progress obj (this s);
     error := error s;
     calls := calls s ++ notifications OnProgressChanged (this s) |}.

Definition results_replaced (obj : ValueMap) (s : Frame) : Frame :=
  {| this := with_results obj (this s);
     error := error s;
     calls := calls s ++ notifications OnResultsChanged (this s) |}.

(** The frame after the owning queue was asked to remove the instance. *)
Definition removal_requested (s : Frame) : Frame :=
  {| this := this s; error := error s; calls := calls s ++ removal (this s) |}.

(** The frame left by a document that failed validation with [e]. *)
Definition invalid (e : Error) (s : Frame) : Frame :=
  {| this := this s; error := Some e; calls := calls s |}.

(** The frame left by a status change to [to] that went through. *)
Definition moved (to : CommandStatus) (s : Frame) : Frame :=
  {| this := with_status to (this s);
     error := error s;
     calls := calls s ++ notifications OnStatusChanged (this s) |}.

End CommandInstance.

(** ** A concrete device: the lock of [examples/daemon/lock/lock.cc]

    The example daemon registers the command [lock.setConfig] whose only
    parameter, [lockedState], is a string restricted to an enumeration.  This
    module instantiates the parameters of the development so that the model
    can be run on it. *)
Module lock.

(** A choice of spellings for the error constants. *)
#[export] Instance codes : ErrorCodes := {|
  commands_kDomain := "command_schema";
  kCommandDestroyed := "command_destroyed";
  kInvalidState := "invalid_state";
  kPropertyMissing := "parameter_missing";
  kInvalidCommandName := "invalid_command_name";
  kCommandFailed := "command_failed";
  json_kDomain := "json_parser";
  kObjectExpected := "json_object_expected";
|}.

(** Schemas of objects whose properties are enumerated strings: a property
    name is mapped to its allowed values.  A document conforms when each of
    its fields is declared and holds one of the allowed strings. *)
Definition conforms (schema : gmap string (list string))
    (field : string * Value) : bool :=
  match field.2, schema !! field.1 with
  | StringValue s, Some allowed => bool_decide (s ∈ allowed)
  | _, _ => false
  end.

Definition string_of (v : Value) : option string :=
  match v with
  | StringValue s => Some s
  | _ => None
  end.

Definition from_json (json : Dictionary) (schema : gmap string (list string))
    (error : ErrorPtr) : gmap string string + Error :=
  if forallb (conforms schema) (map_to_list json)
  then inl (omap string_of json)
  else inr (MakeError "command_schema" "invalid_parameter_value"
                      "Value is not one of the allowed ones" error).

Definition error_to_json (e : Error) : Dictionary :=
  {[ "code" := StringValue (GetCode e);
     "message" := StringValue (GetMessage e) ]}.

#[export] Instance utils : SchemaUtils := {|
  ValueMap := gmap string string;
  ValueMap_default := ∅;
  ObjectSchema := gmap string (list string);
  TypedValueFromJson := from_json;
  TypedValueToJson := fmap StringValue;
  ErrorInfoToJson := error_to_json;
|}.

(** The daemon declares the parameters only.  So that progress and results
    documents other than the empty one can be run through the model, the
    definition here also lets the handler report the state it reached. *)
Definition setConfig : CommandDefinition := {|
  GetParameters := {[ "lockedState" := ["locked"; "unlocked"] ]};
  GetProgress := {[ "lockedState" := ["locked"; "unlocked"] ]};
  GetResults := {[ "lockedState" := ["locked"; "unlocked"] ]};
|}.

Definition dictionary : CommandDictionary :=
  {[ "lock.setConfig" := setConfig ]}.

(** The request [{"id":"1","name":"lock.setConfig",
    "parameters":{"lockedState":"locked"}}]. *)
Definition request : Dictionary :=
  {[ "id" := StringValue "1";
     "name" := StringValue "lock.setConfig";
     "parameters" := DictionaryValue {[ "lockedState" := StringValue "locked" ]} ]}.

(** The instance built from [request], owned by queue 0 and watched by
    observers 7 and 8. *)
Definition command : CommandInstance := {|
  id_ := "1";
  name_ := "lock.setConfig";
  origin_ := kCloud;
  command_definition_ := Some setConfig;
  parameters_ := {[ "lockedState" := "locked" ]};
  progress_ := ∅;
  results_ := ∅;
  status_ := kQueued;
  error_ := None;
  observers_ := [7; 8];
  queue_ := Some 0;
|}.

(** The same instance in another status. *)
Definition command_in (status : CommandStatus) : CommandInstance :=
  with_status status command.

(** A call on [c] with an empty error slot and nothing recorded yet. *)
Definition on (c : CommandInstance) : Frame :=
  {| this := c; error := None; calls := [] |}.

(** The document [{"lockedState":"unlocked"}]. *)
Definition unlocked : Dictionary :=
  {[ "lockedState" := StringValue "unlocked" ]}.

(** The document [{"lockedState":"open"}], outside the enumeration. *)
Definition open : Dictionary :=
  {[ "lockedState" := StringValue "open" ]}.

Definition handler_error : Error :=
  MakeError "example" "invalid_parameter_value" "Invalid parameters" None.

(** An instance that ended Done although the handler had reported
    [handler_error] on the way. *)
Definition done_with_error : CommandInstance :=
  with_error (Some handler_error) (command_in kDone).

(** The requests [{"name":"unknown.cmd"}], [{"name":"lock.setConfig"}] and
    [{"name":"lock.setConfig","parameters":"hello"}]. *)
Definition unknown_request : Dictionary :=
  {[ "name" := StringValue "unknown.cmd" ]}.


Definition malformed_request : Dictionary :=
  {[ "name" := StringValue "lock.setConfig";
     "parameters" := StringValue "hello" ]}.

End lock.

(** ** The remaining accessors of [CommandInstance]

    [GetParameters], [GetProgress] and [GetResults] of the instance are
    overrides of the [Command] interface; the module keeps them apart from
    the accessors of the definition that carry the same names. *)
Module Command.
Section Accessors.
Context `{SchemaUtils}.

Definition GetParameters (c : CommandInstance) : Dictionary :=
  TypedValueToJson (parameters_ c).

Definition GetProgress (c : CommandInstance) : Dictionary :=
  TypedValueToJson (progress_ c).

Definition GetResults (c : CommandInstance) : Dictionary :=
  TypedValueToJson (results_ c).

End Accessors.
End Command.

(** [StringToEnum], the converse of [EnumToString]: the id of the first entry
    of the table that carries the name ([enum_to_string.h] is not among the
    sources; the tables are). *)
Fixpoint FindIdByName {T} (table : list (T * string)) (name : string)
  : option T :=
  match table with
  | [] => None
  | (id, n) :: rest =>
      if decide (n = name) then Some id else FindIdByName rest name
  end.

Definition StringToEnum {T} (table : list (T * string)) (name : string)
  : option T := FindIdByName table name.

Section Sequences.
Context `{ErrorCodes} `{SchemaUtils}.

(** Several calls on the same instance, one after the other, the caller
    handing in the same error slot each time. *)
Fixpoint run_all (ops : list Operation) : Method (list bool) :=
  match ops with
  | [] => mret []
  | op :: rest =>
      result ← run op;
      results ← run_all rest;
      mret (result :: results)
  end.

(** The frame left by a call on an instance whose definition is gone. *)
Definition destroyed (s : Frame) : Frame :=
  {| this := this s;
     error := AddTo commands_kDomain kCommandDestroyed
                    "Command has been destroyed" (error s);
     calls := calls s |}.

(** The members no method assigns to. *)
Definition same_identity (c c' : CommandInstance) : Prop :=
  id_ c' = id_ c
  /\ name_ c' = name_ c
  /\ origin_ c' = origin_ c
  /\ command_definition_ c' = command_definition_ c
  /\ parameters_ c' = parameters_ c
  /\ observers_ c' = observers_ c
  /\ queue_ c' = queue_ c.

(** How the status can have moved: not at all, or out of a live status into
    a status other than Queued. *)
Definition StatusStep (old new : CommandStatus) : Prop :=
  new = old \/ (IsTerminal old = false /\ new <> kQueued).

(** Does the operation reach [RemoveFromQueue]? *)
Definition requests_removal (op : Operation) (s : Frame) : bool :=
  match op with
  | DoAbort _ | DoCancel => true
  | DoSetResults results =>
      match validated GetResults results s with
      | Some (inl _) => true
      | _ => false
      end
  | _ => false
  end.

(** A notification sent to one of the given observers. *)
Definition notifies (observers : list Observer) (call : Call) : Prop :=
  match call with
  | Notify observer _ => observer ∈ observers
  | DelayedRemove _ _ => False
  end.

End Sequences.

(** ** The handler of [examples/daemon/lock/lock.cc] *)
Module LockHandler.

Inductive LockState : Type := kUnlocked | kLocked | kPartiallyLocked.

#[export] Instance LockState_eq_dec : EqDecision LockState.
Proof. solve_decision. Defined.

Definition kLockMapMethod : list (LockState * string) :=
  [ (kLocked, "locked");
    (kUnlocked, "unlocked");
    (kPartiallyLocked, "partiallyLocked") ].

(** The handler keeps the simulated state of the lock; the state updates it
    sends to the device ([SetStateProperties]) are recorded, oldest first. *)
Record LockHandler : Type := {
  lock_state_ : LockState;
  state_updates : list Dictionary;
}.

(** A freshly constructed handler: the lock is locked. *)
Definition new_LockHandler : LockHandler :=
  {| lock_state_ := kLocked; state_updates := [] |}.

(** [UpdateLockState]: the document has the single property
    ["lock.lockedState"]; [DictionaryValue::SetString] takes a path, so the
    name is stored under ["lockedState"] inside ["lock"]. *)
Definition UpdateLockState (h : LockHandler) : LockHandler :=
  let updated_state := FindNameById kLockMapMethod (lock_state_ h) in
  let state : Dictionary :=
    {[ "lock" := DictionaryValue {[ "lockedState" := StringValue updated_state ]} ]} in
  {| lock_state_ := lock_state_ h;
     state_updates := state_updates h ++ [state] |}.

Section Handler.
Context `{ErrorCodes} `{SchemaUtils}.

(** A method called with a null [error] pointer: the caller's own slot is not
    involved, and whatever the method reports is lost. *)
Definition with_nullptr {A} (method : Method A) : Method A :=
  fun s =>
    let '(a, s') := method {| this := this s; error := None; calls := calls s |} in
    (a, {| this := this s'; error := error s; calls := calls s' |}).

(** The error the handler builds: [Error::AddTo] on an empty slot. *)
Definition InvalidParameters : ErrorPtr :=
  AddTo "example" "invalid_parameter_value" "Invalid parameters" None.

(** [Complete] is the name that [SetResults] is to take (see the TODO in
    [weave/command.h]); the handler passes the empty document. *)
Definition Complete (results : Dictionary) : Method bool := SetResults results.

(** [OnLockSetConfig].  [command] is what locking the weak pointer gives:
    nothing when the command is gone. *)
Definition OnLockSetConfig (h : LockHandler) (command : option Frame)
  : LockHandler * option Frame :=
  match command with
  | None => (h, None)
  | Some cmd =>
      let params := Command.GetParameters (this cmd) in
      match GetString "lockedState" params with
      | Some requested_state =>
          match StringToEnum kLockMapMethod requested_state with
          | None =>
              (* Invalid lock state was specified. *)
              (h, Some (with_nullptr (Abort InvalidParameters) cmd).2)
          | Some new_lock_status =>
              let h' :=
                if decide (new_lock_status <> lock_state_ h) then
                  UpdateLockState {| lock_state_ := new_lock_status;
                                     state_updates := state_updates h |}
                else h in
              (h', Some (with_nullptr (Complete ∅) cmd).2)
          end
      | None => (h, Some (with_nullptr (Abort InvalidParameters) cmd).2)
      end
  end.

End Handler.
End LockHandler.

(** ** More of the lock example

    Inputs on which the lifecycle and the handler are run further down. *)
Module lock_runs.
Import lock.

(** A handler that keeps calling after the command was cancelled. *)
Definition late_calls : list Operation :=
  [ DoSetProgress unlocked; DoPause; DoSetResults unlocked;
    DoSetStatus kQueued; DoAbort (Some handler_error) ].

(** A client that asks for the command to be queued again. *)
Definition requeue_calls : list Operation :=
  [ DoSetStatus kQueued; DoPause; DoSetStatus kQueued; DoSetError None ].

(** [lock.setConfig] asking for the state "unlocked", and asking for the
    state "ajar", which is no lock state (the schema of the example would not
    let it through; an instance constructed directly can carry it). *)
Definition unlock_command : CommandInstance :=
  new_CommandInstance "lock.setConfig" kLocal setConfig
                      {[ "lockedState" := "unlocked" ]}.

Definition ajar_command : CommandInstance :=
  new_CommandInstance "lock.setConfig" kLocal setConfig
                      {[ "lockedState" := "ajar" ]}.


(** [request] with a field that no reader knows. *)
Definition annotated_request : Dictionary :=
  <[ "comment" := StringValue "from the hallway panel" ]> request.

End lock_runs.

(** ** Writing a code point ([base/strings/utf_string_conversion_utils.cc])

    A [std::string] is a list of bytes.  The macro [CBU8_APPEND_UNSAFE] and
    the constant [CBU8_MAX_LENGTH] come from [icu_utf.h], which is not among
    the sources: the function is parametric in them.  The macro is given the
    buffer, the offset and the code point, and gives back the buffer and the
    offset as it leaves them.  [size_t_bits] is the width of [size_t]. *)
Module utf_string_conversion_utils.
Section WriteUnicodeCharacter.
Variable CBU8_MAX_LENGTH : nat.
Variable CBU8_APPEND_UNSAFE : list Z -> nat -> Z -> list Z * nat.
Variable size_t_bits : Z.

(** [std::string::resize]: cut, or fill up with zero bytes. *)
Definition resize (n : nat) (s : list Z) : list Z :=
  take n s ++ replicate (n - length s) 0%Z.

Definition WriteUnicodeCharacter (code_point : Z) (output : list Z)
  : Z * list Z :=
  if decide (code_point ≤ 0x7f)%Z then
    (* Fast path the common case of one byte. *)
    (1%Z, output ++ [code_point])
  else
    (* CBU8_APPEND_UNSAFE can append up to 4 bytes. *)
    let char_offset := length output in
    let original_char_offset := char_offset in
    let output := resize (char_offset + CBU8_MAX_LENGTH) output in
    let '(output, char_offset) :=
      CBU8_APPEND_UNSAFE output char_offset code_point in
    (* The offset was advanced past the inserted character, so it is the new
       length of the string. *)
    let output := resize char_offset output in
    (((Z.of_nat char_offset - Z.of_nat original_char_offset)
        mod 2 ^ size_t_bits)%Z,
     output).

End WriteUnicodeCharacter.

(** An implementation of the macro to run the function with: the UTF-8
    encoding of the code point, stored from the offset on. *)
Definition utf8_append (s : list Z) (i : nat) (c : Z) : list Z * nat :=
  let lead (bits mark : Z) : Z := Z.lor (Z.shiftr c bits) mark in
  let trail (bits : Z) : Z :=
    Z.lor (Z.land (Z.shiftr c bits) 0x3f%Z) 0x80%Z in
  if decide (c ≤ 0x7f)%Z then (<[i := c]> s, i + 1)
  else if decide (c ≤ 0x7ff)%Z then
    (<[i + 1 := trail 0%Z]> (<[i := lead 6%Z 0xc0%Z]> s), i + 2)
  else if decide (c ≤ 0xffff)%Z then
    (<[i + 2 := trail 0%Z]>
       (<[i + 1 := trail 6%Z]> (<[i := lead 12%Z 0xe0%Z]> s)), i + 3)
  else
    (<[i + 3 := trail 0%Z]>
       (<[i + 2 := trail 6%Z]>
          (<[i + 1 := trail 12%Z]> (<[i := lead 18%Z 0xf0%Z]> s))), i + 4).

End utf_string_conversion_utils.

(** * Properties *)

Section Properties.
Context `{ErrorCodes} `{SchemaUtils}.

Implicit Types (s : Frame) (c : CommandInstance) (status to : CommandStatus).

(** ** The transition function *)

Lemma Clone_id (e : Error) : Clone e = e.
Proof.
  revert e. fix IH 1. intros [d c m [i|]]; simpl; [|reflexivity].
  now rewrite IH.
Qed.

Lemma Clone_fmap_id (e : ErrorPtr) : Clone <$> e = e.
Proof. destruct e as [e|]; simpl; [|reflexivity]. now rewrite Clone_id. Qed.

Lemma Frame_eta s : {| this := this s; error := error s; calls := calls s |} = s.
Proof. now destruct s. Qed.

(** The three outcomes of [SetStatus], one lemma each. *)
Lemma SetStatus_same s status :
  status = status_ (this s) -> SetStatus status s = (true, s).
Proof.
  intros ->. unfold SetStatus, mbind, State_bind, gets. simpl.
  now rewrite decide_True.
Qed.

Lemma SetStatus_refused s status :
  status <> status_ (this s) ->
  status = kQueued \/ IsTerminal (status_ (this s)) = true ->
  SetStatus status s = (false, refused status s).
Proof.
  intros Hne Hcase. unfold SetStatus, refused, mbind, State_bind, gets. simpl.
  rewrite decide_False by assumption.
  destruct (decide (status = kQueued)) as [->|Hq]; [reflexivity|].
  destruct Hcase as [?|Hterm]; [contradiction|].
  destruct (status_ (this s)); simpl in Hterm; try discriminate; reflexivity.
Qed.

Lemma SetStatus_moved s status :
  status <> status_ (this s) ->
  status <> kQueued ->
  IsTerminal (status_ (this s)) = false ->
  SetStatus status s = (true, moved status s).
Proof.
  intros Hne Hq Hlive. unfold SetStatus, moved, mbind, State_bind, gets. simpl.
  rewrite !decide_False by assumption.
  destruct (status_ (this s)); simpl in Hlive; try discriminate; reflexivity.
Qed.

(** Whatever the outcome, only the status member can differ afterwards. *)
Lemma SetStatus_frame s status :
  let r := SetStatus status s in
  this r.2 = this s \/ this r.2 = with_status status (this s).
Proof.
  simpl. destruct (decide (status = status_ (this s))) as [Heq|Hne].
  { rewrite SetStatus_same by assumption. now left. }
  destruct (decide (status = kQueued)) as [Hq|Hq].
  { rewrite SetStatus_refused by auto. now left. }
  destruct (IsTerminal (status_ (this s))) eqn:Hterm.
  - rewrite SetStatus_refused by auto. now left.
  - rewrite SetStatus_moved by assumption. now right.
Qed.

Lemma terminal_not_Error status : IsTerminal status = true -> kError <> status.
Proof. now destruct status. Qed.

(** ** What each operation does once its status change is refused *)

Lemma RemoveFromQueue_spec s :
  RemoveFromQueue s
  = (tt, {| this := this s; error := error s;
            calls := calls s ++ removal (this s) |}).
Proof.
  unfold RemoveFromQueue, removal, GetID, mbind, State_bind, gets, emit, modify.
  simpl. destruct (queue_ (this s)); simpl; [reflexivity|].
  rewrite app_nil_r. unfold mret, State_ret. now rewrite Frame_eta.
Qed.

Lemma validated_Some pick json s r :
  validated pick json s = Some r ->
  exists definition,
    command_definition_ (this s) = Some definition
    /\ TypedValueFromJson json (pick definition) (error s) = r.
Proof.
  unfold validated. destruct (command_definition_ (this s)) as [d|]; simpl;
    [|discriminate].
  intros [= <-]. now exists d.
Qed.

Lemma refused_operation s op to :
  IsTerminal (status_ (this s)) = true ->
  attempts op s = Some to ->
  to <> status_ (this s) ->
  rejected to s (run op s)
  /\ results_ (this (run op s).2) = results_after_refusal op s.
Proof.
  intros Hterm Hatt Hne.
  destruct op as [to'|progress|results|e| |e| ]; simpl in Hatt.
  - (* SetStatus *)
    injection Hatt as ->. simpl.
    rewrite SetStatus_refused by auto. now repeat split.
  - (* SetProgress *)
    destruct (validated GetProgress progress s) as [[obj|e]|] eqn:Hval;
      try discriminate.
    injection Hatt as <-.
    apply validated_Some in Hval as (d & Hdef & Hparse).
    simpl. unfold SetProgress, TypedValueFromJson_at, mbind, State_bind, gets.
    simpl. rewrite Hdef, Hparse, SetStatus_refused by auto.
    now repeat split.
  - (* SetResults *)
    destruct (validated GetResults results s) as [[obj|e]|] eqn:Hval;
      try discriminate.
    injection Hatt as <-.
    simpl. rewrite Hval.
    apply validated_Some in Hval as (d & Hdef & Hparse).
    unfold SetResults, TypedValueFromJson_at, mbind, State_bind, gets.
    simpl. rewrite Hdef, Hparse.
    destruct (decide (obj <> results_ (this s))) as [Hdiff|Hsame]; simpl.
    + rewrite SetStatus_refused by (simpl; auto).
      rewrite RemoveFromQueue_spec. now repeat split.
    + rewrite SetStatus_refused by (simpl; auto).
      rewrite RemoveFromQueue_spec. repeat split; simpl.
      symmetry. now apply dec_stable.
  - (* SetError *)
    injection Hatt as <-. simpl.
    unfold SetError, update_this, modify, mbind, State_bind. simpl.
    rewrite SetStatus_refused by (simpl; auto). now repeat split.
  - (* Pause *)
    injection Hatt as <-. simpl. unfold Pause.
    rewrite SetStatus_refused by auto. now repeat split.
  - (* Abort *)
    injection Hatt as <-. simpl.
    unfold Abort, update_this, modify, mbind, State_bind. simpl.
    rewrite SetStatus_refused by (simpl; auto).
    rewrite RemoveFromQueue_spec. now repeat split.
  - (* Cancel *)
    injection Hatt as <-. simpl.
    unfold Cancel, mbind, State_bind.
    rewrite SetStatus_refused by auto.
    rewrite RemoveFromQueue_spec. now repeat split.
Qed.

Lemma same_status_operation s op to :
  IsTerminal (status_ (this s)) = true ->
  attempts op s = Some to ->
  to = status_ (this s) ->
  (run op s).1 = true
  /\ error (run op s).2 = error s
  /\ status_ (this (run op s).2) = status_ (this s)
  /\ progress_ (this (run op s).2) = progress_ (this s)
  /\ results_ (this (run op s).2) = results_after_refusal op s.
Proof.
  intros Hterm Hatt Heq.
  destruct op as [to'|progress|results|e| |e| ]; simpl in Hatt.
  - (* SetStatus *)
    injection Hatt as ->. simpl.
    rewrite SetStatus_same by assumption. now repeat split.
  - (* SetProgress asks for InProgress, which is not terminal *)
    destruct (validated GetProgress progress s) as [[obj|e]|];
      try discriminate.
    injection Hatt as <-. rewrite <- Heq in Hterm. discriminate.
  - (* SetResults *)
    destruct (validated GetResults results s) as [[obj|e]|] eqn:Hval;
      try discriminate.
    injection Hatt as <-.
    simpl. rewrite Hval.
    apply validated_Some in Hval as (d & Hdef & Hparse).
    unfold SetResults, TypedValueFromJson_at, mbind, State_bind, gets.
    simpl. rewrite Hdef, Hparse.
    destruct (decide (obj <> results_ (this s))) as [Hdiff|Hsame]; simpl.
    + rewrite SetStatus_same by (simpl; assumption).
      rewrite RemoveFromQueue_spec. now repeat split.
    + rewrite SetStatus_same by assumption.
      rewrite RemoveFromQueue_spec. repeat split; simpl.
      symmetry. now apply dec_stable.
  - (* SetError asks for Error, which is not terminal *)
    injection Hatt as <-. rewrite <- Heq in Hterm. discriminate.
  - (* Pause asks for Paused, which is not terminal *)
    injection Hatt as <-. rewrite <- Heq in Hterm. discriminate.
  - (* Abort *)
    injection Hatt as <-. simpl.
    unfold Abort, update_this, modify, mbind, State_bind. simpl.
    rewrite SetStatus_same by (simpl; assumption).
    rewrite RemoveFromQueue_spec. now repeat split.
  - (* Cancel *)
    injection Hatt as <-. simpl.
    unfold Cancel, mbind, State_bind.
    rewrite SetStatus_same by assumption.
    rewrite RemoveFromQueue_spec. now repeat split.
Qed.

(** C1 (as amended).  Terminal finality: on an instance whose status is one
    of Done, Cancelled, Aborted, Expired, every operation that gets as far as
    asking [SetStatus] for a status other than the current one ([SetStatus]
    itself, [SetProgress] or [SetResults] with a document that validates,
    [SetError], [Pause], [Abort], [Cancel]) returns failure with
    InvalidStateTransition and leaves the status and the progress unchanged.
    The results are unchanged too, except through [SetResults], which has
    stored the validated document before the status change is refused.
    An operation that asks for the very status the instance is in is not
    refused: it returns success, reports no error and leaves the status and
    the progress unchanged; the results are unchanged except through
    [SetResults], which has stored the validated document; asked of
    [SetStatus] directly, the request changes nothing at all. *)
Theorem terminal_finality s op to :
  IsTerminal (status_ (this s)) = true ->
  attempts op s = Some to ->
  (to <> status_ (this s) ->
   rejected to s (run op s)
   /\ results_ (this (run op s).2) = results_after_refusal op s
   /\ ((forall results, op <> DoSetResults results) ->
       results_ (this (run op s).2) = results_ (this s)))
  /\ (to = status_ (this s) ->
      (run op s).1 = true
      /\ error (run op s).2 = error s
      /\ status_ (this (run op s).2) = status_ (this s)
      /\ progress_ (this (run op s).2) = progress_ (this s)
      /\ results_ (this (run op s).2) = results_after_refusal op s
      /\ ((forall results, op <> DoSetResults results) ->
          results_ (this (run op s).2) = results_ (this s))
      /\ (op = DoSetStatus to -> run op s = (true, s))).
Proof.
  intros Hterm Hatt.
  assert (Hkept : (forall results, op <> DoSetResults results) ->
                  results_after_refusal op s = results_ (this s)).
  { intros Hother. destruct op; try reflexivity.
    now destruct (Hother results). }
  split.
  - intros Hne.
    destruct (refused_operation s op to Hterm Hatt Hne) as [Hrej Hres].
    split; [exact Hrej|]. split; [exact Hres|].
    intros Hother. rewrite Hres. now apply Hkept.
  - intros Heq.
    destruct (same_status_operation s op to Hterm Hatt Heq)
      as (Hok & Herr & Hst & Hprog & Hres).
    split; [exact Hok|]. split; [exact Herr|]. split; [exact Hst|].
    split; [exact Hprog|]. split; [exact Hres|]. split.
    + intros Hother. rewrite Hres. now apply Hkept.
    + intros ->. simpl. now apply SetStatus_same.
Qed.

(** C2 (as amended).  No re-queue: from every status other than Queued a
    request for Queued fails with InvalidStateTransition and changes nothing
    else; on a Queued instance the request asks for the current status and
    succeeds without any effect. *)
Theorem no_requeue s :
  (status_ (this s) <> kQueued ->
   SetStatus kQueued s = (false, refused kQueued s))
  /\ (status_ (this s) = kQueued -> SetStatus kQueued s = (true, s)).
Proof.
  split; intros Hst.
  - apply SetStatus_refused; [congruence | now left].
  - now apply SetStatus_same.
Qed.

(** C3.  Idempotent same-status transition: whatever the current status, a
    request for that very status returns success, fires no observer
    notification (no call at all is made) and leaves instance and error slot
    as they were. *)
Theorem same_status_is_noop s :
  let r := SetStatus (status_ (this s)) s in
  r.1 = true /\ calls r.2 = calls s /\ r.2 = s.
Proof. simpl. now rewrite SetStatus_same. Qed.

(** ** Progress and results *)

Lemma SetStatus_keeps s status :
  let r := SetStatus status s in
  progress_ (this r.2) = progress_ (this s)
  /\ results_ (this r.2) = results_ (this s)
  /\ observers_ (this r.2) = observers_ (this s)
  /\ queue_ (this r.2) = queue_ (this s)
  /\ id_ (this r.2) = id_ (this s)
  /\ error_ (this r.2) = error_ (this s).
Proof.
  simpl. destruct (SetStatus_frame s status) as [-> | ->]; now repeat split.
Qed.

Lemma SetProgress_valid s progress obj :
  validated GetProgress progress s = Some (inl obj) ->
  SetProgress progress s
  = let t := SetStatus kInProgress s in
    if t.1 then
      (true, if decide (obj = progress_ (this s)) then t.2
             else progress_replaced obj t.2)
    else (false, t.2).
Proof.
  intros Hval. apply validated_Some in Hval as (d & Hdef & Hparse).
  unfold SetProgress, TypedValueFromJson_at, mbind, State_bind, gets. simpl.
  rewrite Hdef, Hparse.
  pose proof (SetStatus_keeps s kInProgress) as (Hprog & _). simpl in Hprog.
  destruct (SetStatus kInProgress s) as [[|] t]; simpl in *; [|reflexivity].
  rewrite Hprog.
  destruct (decide (obj = progress_ (this s))) as [Heq|Hne].
  - rewrite decide_False by (intros Hc; now apply Hc).
    unfold mret, State_ret. reflexivity.
  - rewrite decide_True by assumption. reflexivity.
Qed.

(** C4.  [SetProgress] with a document that validates against the progress
    schema: the change to InProgress is asked of [SetStatus] whether or not
    the progress differs, and a refusal is returned as it is; when the change
    goes through, the progress is replaced and the observers are told of it
    exactly when the validated value differs from the stored one. *)
Theorem SetProgress_contract s progress obj :
  validated GetProgress progress s = Some (inl obj) ->
  let t := SetStatus kInProgress s in
  let r := SetProgress progress s in
  r.1 = t.1
  /\ (t.1 = false -> r.2 = t.2)
  /\ (t.1 = true -> obj = progress_ (this s) -> r.2 = t.2)
  /\ (t.1 = true -> obj <> progress_ (this s) ->
      r.2 = progress_replaced obj t.2
      /\ progress_ (this r.2) = obj
      /\ calls r.2 = calls t.2 ++ notifications OnProgressChanged (this s)).
Proof.
  intros Hval. simpl. rewrite (SetProgress_valid _ _ _ Hval). simpl.
  pose proof (SetStatus_keeps s kInProgress) as (_ & _ & Hobs & _).
  simpl in Hobs.
  destruct (SetStatus kInProgress s) as [[|] t]; simpl in *.
  - repeat split; try discriminate.
    + intros _ Heq. now rewrite decide_True.
    + rewrite decide_False by assumption. reflexivity.
    + rewrite decide_False by assumption. reflexivity.
    + rewrite decide_False by assumption. simpl.
      unfold notifications. now rewrite Hobs.
  - repeat split; try discriminate; reflexivity.
Qed.

Lemma SetResults_valid s results obj :
  validated GetResults results s = Some (inl obj) ->
  SetResults results s
  = let stored := if decide (obj = results_ (this s)) then s
                  else results_replaced obj s in
    let t := SetStatus kDone stored in
    (t.1, removal_requested t.2).
Proof.
  intros Hval. apply validated_Some in Hval as (d & Hdef & Hparse).
  unfold SetResults, TypedValueFromJson_at, mbind, State_bind, gets. simpl.
  rewrite Hdef, Hparse.
  destruct (decide (obj = results_ (this s))) as [Heq|Hne].
  - rewrite decide_False by (intros Hc; now apply Hc). simpl.
    destruct (SetStatus kDone s) as [b t]. simpl.
    now rewrite RemoveFromQueue_spec.
  - rewrite decide_True by assumption. simpl.
    unfold results_replaced, notifications.
    destruct (SetStatus kDone _) as [b t]. simpl.
    now rewrite RemoveFromQueue_spec.
Qed.

Lemma SetResults_invalid s results e :
  validated GetResults results s = Some (inr e) ->
  SetResults results s = (false, invalid e s).
Proof.
  intros Hval. apply validated_Some in Hval as (d & Hdef & Hparse).
  unfold SetResults, TypedValueFromJson_at, mbind, State_bind, gets. simpl.
  now rewrite Hdef, Hparse.
Qed.

(** C5 (as amended).  [SetResults] with a document that validates against the
    results schema stores the validated results (telling the observers only
    if they differ), then asks [SetStatus] for Done, then asks the owning
    queue to remove the instance.  The status change goes through from
    Queued, InProgress, Paused, Error and Done; from Cancelled, Aborted and
    Expired it is refused with InvalidStateTransition and the status stays,
    the removal being requested all the same.  With a document that fails
    validation the call returns the validation error and changes neither the
    instance nor the calls made. *)
Theorem SetResults_contract s results :
  (forall obj,
     validated GetResults results s = Some (inl obj) ->
     let stored := if decide (obj = results_ (this s)) then s
                   else results_replaced obj s in
     let r := SetResults results s in
     r = ((SetStatus kDone stored).1,
          removal_requested (SetStatus kDone stored).2)
     /\ results_ (this r.2) = obj
     /\ (exists before, calls r.2 = before ++ removal (this s))
     /\ (IsTerminal (status_ (this s)) = false \/ status_ (this s) = kDone ->
         r.1 = true /\ status_ (this r.2) = kDone)
     /\ (IsTerminal (status_ (this s)) = true -> status_ (this s) <> kDone ->
         rejected kDone s r))
  /\ (forall e,
       validated GetResults results s = Some (inr e) ->
       SetResults results s = (false, invalid e s)).
Proof.
  split; [|apply SetResults_invalid].
  intros obj Hval. simpl. rewrite (SetResults_valid _ _ _ Hval). simpl.
  set (stored := if decide (obj = results_ (this s)) then s
                 else results_replaced obj s).
  assert (Hst : status_ (this stored) = status_ (this s))
    by (subst stored; now case_decide).
  assert (Hres : results_ (this stored) = obj)
    by (subst stored; now case_decide).
  assert (Hprog : progress_ (this stored) = progress_ (this s))
    by (subst stored; now case_decide).
  assert (Herr : error stored = error s) by (subst stored; now case_decide).
  assert (Hrem : removal (this stored) = removal (this s))
    by (subst stored; now case_decide).
  pose proof (SetStatus_keeps stored kDone) as (_ & Hkeep & _ & Hq & Hid & _).
  simpl in Hkeep, Hq, Hid.
  split; [reflexivity|]. split; [now rewrite Hkeep|]. split.
  { eexists. unfold removal in *. rewrite Hq, Hid. now rewrite <- Hrem. }
  split.
  - intros [Hlive|Hdone].
    + rewrite SetStatus_moved.
      * now split.
      * rewrite Hst. now destruct (status_ (this s)).
      * discriminate.
      * now rewrite Hst.
    + rewrite SetStatus_same by congruence. simpl. split; congruence.
  - intros Hterm Hnd.
    rewrite SetStatus_refused by (rewrite Hst; auto).
    unfold rejected, InvalidStateTransition. simpl.
    now rewrite Hst, Herr, Hprog.
Qed.

(** ** Construction *)

Lemma FromJson_id value origin dictionary error :
  command_id (FromJson value origin dictionary error) = best_effort_id value.
Proof.
  unfold FromJson, best_effort_id, GetString, Get, kCommand_Id.
  destruct value as [ | | | | |json| ]; simpl; try reflexivity.
  assert (Hid : default "" match json !! "id" with
                           | Some (StringValue s) => Some s
                           | _ => None
                           end
                = match json !! "id" with
                  | Some (StringValue id) => id
                  | _ => ""
                  end)
    by (destruct (json !! "id") as [[]|]; reflexivity).
  repeat case_match; simpl; exact Hid.
Qed.

Lemma FromJson_failed_iff value origin dictionary error :
  instance (FromJson value origin dictionary error) = None
  <-> Defect dictionary error value.
Proof.
  split.
  - unfold FromJson.
    destruct (GetAsDictionary value) as [json|] eqn:Hobj;
      [|intros _; now constructor].
    assert (value = DictionaryValue json) as ->
      by (destruct value; try discriminate; now injection Hobj as ->).
    destruct (GetString kCommand_Name json) as [name|] eqn:Hname;
      [|intros _; now constructor].
    destruct (FindCommand dictionary name) as [d|] eqn:Hfind;
      [|intros _; now apply NameUnknown with name].
    destruct (GetCommandParameters json d error) as [[p|] e'] eqn:Hpar;
      [discriminate|].
    intros _. now apply ParametersInvalid with name d e'.
  - intros Hdefect. unfold FromJson.
    induction Hdefect as [v Hobj|json Hname|json name Hname Hfind
                          |json name d e' Hname Hfind Hpar]; simpl.
    + now rewrite Hobj.
    + now rewrite Hname.
    + now rewrite Hname, Hfind.
    + now rewrite Hname, Hfind, Hpar.
Qed.

Lemma FromJson_failed_error value origin dictionary error :
  instance (FromJson value origin dictionary error) = None ->
  is_Some (error_out (FromJson value origin dictionary error)).
Proof.
  unfold FromJson, AddTo. repeat case_match; simpl; (discriminate || eauto).
Qed.

(** C6.  [FromJson] fails exactly on the requests with one of the four
    defects (top-level value not an object, name missing, name unknown,
    parameters not validated); whenever it fails it returns no instance, an
    error, and the best-effort id: the string under ['id'], the empty string
    when there is none.  A request whose name the dictionary does not know
    fails with InvalidCommandName. *)
Theorem FromJson_failure value origin dictionary error :
  let r := FromJson value origin dictionary error in
  (Defect dictionary error value <-> instance r = None)
  /\ (instance r = None ->
      is_Some (error_out r) /\ command_id r = best_effort_id value)
  /\ (forall json name,
        value = DictionaryValue json ->
        GetString kCommand_Name json = Some name ->
        FindCommand dictionary name = None ->
        instance r = None
        /\ command_id r = best_effort_id value
        /\ exists e, error_out r = Some e
                     /\ GetDomain e = commands_kDomain
                     /\ GetCode e = kInvalidCommandName
                     /\ GetInnerError e = error).
Proof.
  simpl. split; [symmetry; apply FromJson_failed_iff|]. split.
  - intros Hfail. split; [now apply FromJson_failed_error|].
    apply FromJson_id.
  - intros json name -> Hname Hfind.
    split; [|split; [apply FromJson_id|]]; unfold FromJson; simpl;
      rewrite Hname, Hfind; simpl; [reflexivity|].
    eexists. split; [reflexivity|]. now repeat split.
Qed.






(** ** Serialisation *)

Lemma EnumToString_state_name status : EnumToString status ∈ state_names.
Proof.
  unfold state_names. destruct status; vm_compute FindNameById;
    repeat (first [apply list_elem_of_here | apply list_elem_of_further]).
Qed.

(** C8.  [ToJson] produces a document whose fields are exactly id, name,
    parameters, progress, results and state, together with error exactly when
    an error is stored on the instance; the state is one of the eight state
    names, and each field holds the corresponding member. *)
Theorem ToJson_shape c :
  dom (ToJson c)
  = {[ "id"; "name"; "parameters"; "progress"; "results"; "state" ]}
      ∪ (match error_ c with Some _ => {[ "error" ]} | None => ∅ end)
  /\ ("error" ∈ dom (ToJson c) <-> is_Some (error_ c))
  /\ ToJson c !! "state" = Some (StringValue (EnumToString (status_ c)))
  /\ EnumToString (status_ c) ∈ state_names
  /\ ToJson c !! "id" = Some (StringValue (id_ c))
  /\ ToJson c !! "name" = Some (StringValue (name_ c))
  /\ ToJson c !! "parameters"
     = Some (DictionaryValue (TypedValueToJson (parameters_ c)))
  /\ ToJson c !! "progress"
     = Some (DictionaryValue (TypedValueToJson (progress_ c)))
  /\ ToJson c !! "results"
     = Some (DictionaryValue (TypedValueToJson (results_ c)))
  /\ ToJson c !! "error"
     = (fun e => DictionaryValue (ErrorInfoToJson e)) <$> error_ c.
Proof.
  assert (Hdom : dom (ToJson c)
                 = {[ "id"; "name"; "parameters"; "progress"; "results";
                      "state" ]}
                     ∪ (match error_ c with
                        | Some _ => {[ "error" ]}
                        | None => ∅
                        end)).
  { unfold ToJson, SetString, Set_, kCommand_Id, kCommand_Name,
      kCommand_Parameters, kCommand_Progress, kCommand_Results,
      kCommand_State, kCommand_Error.
    destruct (error_ c); rewrite !dom_insert_L, dom_empty_L; set_solver. }
  split; [exact Hdom|]. split.
  { rewrite Hdom. destruct (error_ c) as [e|].
    - split; [eauto | set_solver].
    - split; [|intros [? [=]]].
      intros Hin. exfalso. revert Hin.
      rewrite !elem_of_union, !elem_of_singleton, elem_of_empty.
      intros [[[[[[?|?]|?]|?]|?]|?]|[]]; discriminate. }
  split; [|split; [apply EnumToString_state_name|]];
    unfold ToJson, SetString, Set_, kCommand_Id, kCommand_Name,
      kCommand_Parameters, kCommand_Progress, kCommand_Results,
      kCommand_State, kCommand_Error;
    destruct (error_ c); simpl; repeat split;
    repeat (first [ rewrite lookup_insert_eq; reflexivity
                  | rewrite lookup_insert_ne by discriminate ]);
    try apply lookup_empty.
Qed.

(** ** Abort, Cancel and SetError *)

Lemma Abort_spec s e :
  Abort e s
  = let t := SetStatus kAborted (error_recorded e s) in
    (t.1, removal_requested t.2).
Proof.
  unfold Abort, update_this, modify, mbind, State_bind. simpl.
  rewrite Clone_fmap_id. fold (error_recorded e s).
  destruct (SetStatus kAborted (error_recorded e s)) as [b t]. simpl.
  now rewrite RemoveFromQueue_spec.
Qed.

Lemma Cancel_spec s :
  Cancel s
  = let t := SetStatus kCancelled s in (t.1, removal_requested t.2).
Proof.
  unfold Cancel, mbind, State_bind.
  destruct (SetStatus kCancelled s) as [b t]. simpl.
  now rewrite RemoveFromQueue_spec.
Qed.

Lemma SetError_spec s e : SetError e s = SetStatus kError (error_recorded e s).
Proof.
  unfold SetError, update_this, modify, mbind, State_bind. simpl.
  now rewrite Clone_fmap_id.
Qed.

Lemma removal_after_SetStatus s status :
  removal (this (SetStatus status s).2) = removal (this s).
Proof.
  pose proof (SetStatus_keeps s status) as (_ & _ & _ & Hq & Hid & _).
  simpl in Hq, Hid. unfold removal. now rewrite Hq, Hid.
Qed.

(** C9 (as amended).  [Abort] and [Cancel] ask the owning queue to remove the
    instance ([DelayedRemove] with the instance's id) whatever [SetStatus]
    answered.  On an instance in a terminal status other than the one the
    call asks for, the call returns failure with InvalidStateTransition and
    the removal is requested all the same; on an instance that is already
    Aborted (for [Abort]) or Cancelled (for [Cancel]) the call returns
    success and requests the removal. *)
Theorem removal_always_requested s queue :
  queue_ (this s) = Some queue ->
  let request := DelayedRemove queue (GetID (this s)) in
  (forall e,
     calls (Abort e s).2
     = calls (SetStatus kAborted (error_recorded e s)).2 ++ [request])
  /\ calls (Cancel s).2 = calls (SetStatus kCancelled s).2 ++ [request]
  /\ (IsTerminal (status_ (this s)) = true ->
      (forall e,
         status_ (this s) <> kAborted ->
         (Abort e s).1 = false
         /\ error (Abort e s).2
           = InvalidStateTransition (status_ (this s)) kAborted (error s)
         /\ calls (Abort e s).2 = calls s ++ [request])
      /\ (status_ (this s) <> kCancelled ->
          (Cancel s).1 = false
          /\ error (Cancel s).2
            = InvalidStateTransition (status_ (this s)) kCancelled (error s)
          /\ calls (Cancel s).2 = calls s ++ [request]))
  /\ (status_ (this s) = kAborted ->
      forall e, (Abort e s).1 = true
                /\ calls (Abort e s).2 = calls s ++ [request])
  /\ (status_ (this s) = kCancelled ->
      (Cancel s).1 = true /\ calls (Cancel s).2 = calls s ++ [request]).
Proof.
  intros Hq request.
  assert (Hrem : forall e, removal (with_error e (this s)) = [request])
    by (intros; unfold removal; simpl; now rewrite Hq).
  assert (Hreq : removal (this s) = [request])
    by (unfold removal; now rewrite Hq).
  split; [|split; [|split; [|split]]].
  - intros e. rewrite Abort_spec. simpl.
    now rewrite removal_after_SetStatus, <- (Hrem e).
  - rewrite Cancel_spec. simpl. now rewrite removal_after_SetStatus, Hreq.
  - intros Hterm. split.
    + intros e Hne. rewrite Abort_spec.
      rewrite SetStatus_refused by (simpl; auto).
      simpl. now rewrite Hrem.
    + intros Hne. rewrite Cancel_spec.
      rewrite SetStatus_refused by auto.
      simpl. now rewrite Hreq.
  - intros Hst e. rewrite Abort_spec.
    rewrite SetStatus_same by (simpl; congruence).
    simpl. now rewrite Hrem.
  - intros Hst. rewrite Cancel_spec.
    rewrite SetStatus_same by congruence.
    simpl. now rewrite Hreq.
Qed.

(** C10.  [SetError] and [Abort] store the supplied error (absent when the
    caller passes null) before they ask for the status change, so after the
    call the stored error is the supplied one whatever the call returned.  In
    particular, on an instance in a terminal status the call fails with
    InvalidStateTransition and yet the stored error has been overwritten: if
    it differed from the supplied one, the failed call has changed the
    instance. *)
Theorem error_stored_before_transition s e :
  GetError (this (SetError e s).2) = e
  /\ GetError (this (Abort e s).2) = e
  /\ (IsTerminal (status_ (this s)) = true ->
      (SetError e s).1 = false
      /\ error (SetError e s).2
        = InvalidStateTransition (status_ (this s)) kError (error s)
      /\ this (SetError e s).2 = with_error e (this s)
      /\ (GetError (this s) <> e -> this (SetError e s).2 <> this s))
  /\ (IsTerminal (status_ (this s)) = true ->
      status_ (this s) <> kAborted ->
      (Abort e s).1 = false
      /\ error (Abort e s).2
        = InvalidStateTransition (status_ (this s)) kAborted (error s)
      /\ this (Abort e s).2 = with_error e (this s)
      /\ (GetError (this s) <> e -> this (Abort e s).2 <> this s)).
Proof.
  assert (Hkeep : forall status,
             error_ (this (SetStatus status (error_recorded e s)).2) = e).
  { intros status.
    pose proof (SetStatus_keeps (error_recorded e s) status)
      as (_ & _ & _ & _ & _ & Herr).
    exact Herr. }
  unfold GetError. split; [|split; [|split]].
  - rewrite SetError_spec. apply Hkeep.
  - rewrite Abort_spec. simpl. apply Hkeep.
  - intros Hterm. rewrite SetError_spec.
    rewrite SetStatus_refused
      by (simpl; auto using terminal_not_Error).
    repeat split. simpl. intros Hne Heq. apply Hne. now rewrite <- Heq.
  - intros Hterm Hne. rewrite Abort_spec.
    rewrite SetStatus_refused by (simpl; auto).
    repeat split. simpl. intros Hne' Heq. apply Hne'. now rewrite <- Heq.
Qed.

End Properties.

(** * Further properties of the state machine *)

Section Lifecycle.
Context `{ErrorCodes} `{SchemaUtils}.

Implicit Types (s : Frame) (c : CommandInstance) (status to : CommandStatus).
Implicit Types (op : Operation) (ops : list Operation).

(** [SetStatus] has three outcomes and no other. *)
Lemma SetStatus_cases s status :
  (SetStatus status s = (true, s) /\ status = status_ (this s))
  \/ (SetStatus status s = (false, refused status s)
      /\ status <> status_ (this s)
      /\ (status = kQueued \/ IsTerminal (status_ (this s)) = true))
  \/ (SetStatus status s = (true, moved status s)
      /\ status <> status_ (this s)
      /\ status <> kQueued
      /\ IsTerminal (status_ (this s)) = false).
Proof.
  destruct (decide (status = status_ (this s))) as [Heq|Hne].
  { left. split; [now apply SetStatus_same | assumption]. }
  right.
  destruct (decide (status = kQueued)) as [Hq|Hq].
  { left. split; [apply SetStatus_refused|]; auto. }
  destruct (IsTerminal (status_ (this s))) eqn:Hterm.
  - left. split; [apply SetStatus_refused|]; auto.
  - right. split; [now apply SetStatus_moved | auto].
Qed.

Ltac status_cases :=
  match goal with
  | |- context [SetStatus ?status ?s] =>
      let E := fresh "E" in
      destruct (SetStatus_cases s status)
        as [(E & Hsame)|[(E & Hdiff & Hwhy)|(E & Hdiff & Hnq & Hlive)]];
      rewrite E; clear E; simpl in *
  end.

(** The calls that stop before [SetStatus]. *)
Lemma validated_None pick json s :
  validated pick json s = None -> command_definition_ (this s) = None.
Proof.
  unfold validated. now destruct (command_definition_ (this s)).
Qed.

Lemma SetProgress_destroyed s progress :
  command_definition_ (this s) = None ->
  SetProgress progress s = (false, destroyed s).
Proof.
  intros Hgone. unfold SetProgress, mbind, State_bind, gets. simpl.
  now rewrite Hgone.
Qed.

Lemma SetResults_destroyed s results :
  command_definition_ (this s) = None ->
  SetResults results s = (false, destroyed s).
Proof.
  intros Hgone. unfold SetResults, mbind, State_bind, gets. simpl.
  now rewrite Hgone.
Qed.

Lemma SetProgress_invalid s progress e :
  validated GetProgress progress s = Some (inr e) ->
  SetProgress progress s = (false, invalid e s).
Proof.
  intros Hval. apply validated_Some in Hval as (d & Hdef & Hparse).
  unfold SetProgress, TypedValueFromJson_at, mbind, State_bind, gets. simpl.
  now rewrite Hdef, Hparse.
Qed.

(** Every operation, written out over [SetStatus]. *)
Lemma run_unfold op s :
  run op s
  = match op with
    | DoSetStatus to => SetStatus to s
    | DoSetProgress progress =>
        match validated GetProgress progress s with
        | None => (false, destroyed s)
        | Some (inr e) => (false, invalid e s)
        | Some (inl obj) =>
            let t := SetStatus kInProgress s in
            if t.1 then
              (true, if decide (obj = progress_ (this s)) then t.2
                     else progress_replaced obj t.2)
            else (false, t.2)
        end
    | DoSetResults results =>
        match validated GetResults results s with
        | None => (false, destroyed s)
        | Some (inr e) => (false, invalid e s)
        | Some (inl obj) =>
            let stored := if decide (obj = results_ (this s)) then s
                          else results_replaced obj s in
            let t := SetStatus kDone stored in
            (t.1, removal_requested t.2)
        end
    | DoSetError e => SetStatus kError (error_recorded e s)
    | DoPause => SetStatus kPaused s
    | DoAbort e =>
        let t := SetStatus kAborted (error_recorded e s) in
        (t.1, removal_requested t.2)
    | DoCancel =>
        let t := SetStatus kCancelled s in (t.1, removal_requested t.2)
    end.
Proof.
  destruct op as [to|progress|results|e| |e| ]; simpl.
  - reflexivity.
  - destruct (validated GetProgress progress s) as [[obj|e]|] eqn:Hval.
    + now apply SetProgress_valid.
    + now apply SetProgress_invalid.
    + apply SetProgress_destroyed. now apply validated_None in Hval.
  - destruct (validated GetResults results s) as [[obj|e]|] eqn:Hval.
    + now apply SetResults_valid.
    + now apply SetResults_invalid.
    + apply SetResults_destroyed. now apply validated_None in Hval.
  - apply SetError_spec.
  - reflexivity.
  - apply Abort_spec.
  - apply Cancel_spec.
Qed.

Ltac frames :=
  unfold moved, refused, removal_requested, progress_replaced,
    results_replaced, error_recorded, destroyed, invalid in *;
  simpl in *.

(** The effect of one operation on the members and on the status. *)
Lemma run_step op s :
  same_identity (this s) (this (run op s).2)
  /\ StatusStep (status_ (this s)) (status_ (this (run op s).2)).
Proof.
  rewrite run_unfold. unfold same_identity, StatusStep.
  destruct op as [to|progress|results|e| |e| ].
  - status_cases; frames; intuition.
  - destruct (validated GetProgress progress s) as [[obj|e]|];
      [|frames; intuition..].
    simpl. status_cases; try case_decide; frames; intuition.
  - destruct (validated GetResults results s) as [[obj|e]|];
      [|frames; intuition..].
    simpl. case_decide; status_cases; frames; intuition.
  - status_cases; frames; intuition.
  - status_cases; frames; intuition.
  - simpl. status_cases; frames; intuition.
  - simpl. status_cases; frames; intuition.
Qed.

Lemma same_identity_trans c1 c2 c3 :
  same_identity c1 c2 -> same_identity c2 c3 -> same_identity c1 c3.
Proof. unfold same_identity. intuition congruence. Qed.

Lemma StatusStep_trans (a b d : CommandStatus) :
  StatusStep a b -> StatusStep b d -> StatusStep a d.
Proof.
  unfold StatusStep. intros [->|[Hlive Hb]] [->|[Hlive' Hc]]; auto.
Qed.

Lemma run_all_cons op ops s :
  this (run_all (op :: ops) s).2 = this (run_all ops (run op s).2).2.
Proof.
  simpl. unfold mbind, State_bind.
  destruct (run op s) as [r s1]. simpl.
  now destruct (run_all ops s1) as [rs s2].
Qed.

Lemma run_all_step ops s :
  same_identity (this s) (this (run_all ops s).2)
  /\ StatusStep (status_ (this s)) (status_ (this (run_all ops s).2)).
Proof.
  revert s. induction ops as [|op ops IH]; intros s.
  - simpl. unfold same_identity, StatusStep. intuition.
  - rewrite run_all_cons.
    destruct (run_step op s) as [Hid Hst].
    destruct (IH (run op s).2) as [Hid' Hst'].
    split; [eapply same_identity_trans | eapply StatusStep_trans]; eauto.
Qed.

(** X1.  [SetStatus] succeeds exactly when the requested status is the
    current one, or the current status is live (Queued, InProgress, Paused,
    Error) and the requested one is not Queued.  A refusal changes nothing
    but the error slot; a change stores the status, leaves the error slot
    alone and notifies every observer once, in registration order. *)
Theorem SetStatus_decision s status :
  let r := SetStatus status s in
  (r.1 = true
   <-> status = status_ (this s)
       \/ (IsTerminal (status_ (this s)) = false /\ status <> kQueued))
  /\ (r.1 = true ->
      status_ (this r.2) = status
      /\ error r.2 = error s
      /\ calls r.2
         = calls s ++ (if decide (status = status_ (this s)) then []
                       else (fun o => Notify o OnStatusChanged)
                              <$> observers_ (this s)))
  /\ (r.1 = false -> r.2 = refused status s).
Proof.
  simpl. status_cases; frames.
  - split; [|split]; [intuition| |discriminate].
    intros _. rewrite decide_True by assumption.
    now rewrite app_nil_r.
  - split; [|split]; [|discriminate|reflexivity].
    split; [discriminate|].
    intros [Heq|[Hlive Hq]]; [contradiction|].
    destruct Hwhy as [?|Hterm]; [contradiction | congruence].
  - split; [|split]; [intuition| |discriminate].
    intros _. now rewrite decide_False by assumption.
Qed.

(** X2.  Terminal statuses are absorbing: once the instance is Done,
    Cancelled, Aborted or Expired, no sequence of operations, valid or not,
    changes its status. *)
Theorem terminal_is_absorbing ops s :
  IsTerminal (status_ (this s)) = true ->
  status_ (this (run_all ops s).2) = status_ (this s).
Proof.
  intros Hterm. destruct (run_all_step ops s) as [_ [Hsame|[Hlive _]]].
  - exact Hsame.
  - congruence.
Qed.

(** X3.  Queued is left for good: an instance that is not Queued is not
    Queued after any sequence of operations. *)
Theorem Queued_is_never_reentered ops s :
  status_ (this s) <> kQueued ->
  status_ (this (run_all ops s).2) <> kQueued.
Proof.
  intros Hne. destruct (run_all_step ops s) as [_ [Hsame|[_ Hq]]].
  - now rewrite Hsame.
  - exact Hq.
Qed.

(** X4.  No operation assigns to the id, the name, the origin, the
    definition, the parameters, the observer list or the queue of the
    instance: after any sequence of operations they are what they were. *)
Theorem operations_keep_identity ops s :
  let c' := this (run_all ops s).2 in
  id_ c' = id_ (this s)
  /\ name_ c' = name_ (this s)
  /\ origin_ c' = origin_ (this s)
  /\ command_definition_ c' = command_definition_ (this s)
  /\ parameters_ c' = parameters_ (this s)
  /\ observers_ c' = observers_ (this s)
  /\ queue_ c' = queue_ (this s).
Proof. exact (proj1 (run_all_step ops s)). Qed.

(** X5.  A call that returns success has not touched the caller's error
    slot.  A call that returns failure has put an error there, and has
    neither moved the status nor replaced the progress. *)
Theorem failure_is_reported op s :
  let r := run op s in
  (r.1 = true -> error r.2 = error s)
  /\ (r.1 = false ->
      is_Some (error r.2)
      /\ status_ (this r.2) = status_ (this s)
      /\ progress_ (this r.2) = progress_ (this s)).
Proof.
  simpl. rewrite run_unfold.
  destruct op as [to|progress|results|e| |e| ]; simpl;
    try (destruct (validated _ _ s) as [[obj|e']|]; simpl);
    try case_decide; try status_cases; frames;
    unfold InvalidStateTransition, AddTo;
    (split; [intros; reflexivity || discriminate|]);
    intros; try discriminate; eauto.
Qed.

(** ** The calls made on observers and on the queue *)

Lemma notifications_go_to_observers what c :
  Forall (notifies (observers_ c)) (notifications what c).
Proof.
  unfold notifications. apply Forall_fmap, Forall_forall.
  intros observer Hin. exact Hin.
Qed.

Ltac told notes :=
  exists notes;
  split;
  [ repeat apply Forall_app_2;
    first [apply Forall_nil_2 | apply notifications_go_to_observers]
  | simpl; rewrite <- ?app_assoc, ?app_nil_r; reflexivity ].

(** X6.  A call only adds to the calls made so far.  What it adds are
    notifications to observers registered on the instance, followed, for
    [Abort], [Cancel] and a [SetResults] whose document validates, by the
    removal request to the owning queue; no other operation asks the queue
    for anything. *)
Theorem calls_are_appended op s :
  exists notes,
    Forall (notifies (observers_ (this s))) notes
    /\ calls (run op s).2
       = calls s ++ notes
           ++ (if requests_removal op s then removal (this s) else []).
Proof.
  rewrite run_unfold.
  destruct op as [to|progress|results|e| |e| ]; simpl;
    try (destruct (validated _ _ s) as [[obj|e']|]; simpl);
    try case_decide; try status_cases; frames;
    first
      [ told (@nil Call)
      | told (notifications OnStatusChanged (this s))
      | told (notifications OnResultsChanged (this s))
      | told (notifications OnProgressChanged (this s))
      | told (notifications OnStatusChanged (this s)
                ++ notifications OnProgressChanged (this s))
      | told (notifications OnResultsChanged (this s)
                ++ notifications OnStatusChanged (this s)) ].
Qed.

(** X7.  The progress is replaced by a successful [SetProgress] only, the
    results by [SetResults] only, the stored error by [SetError] and [Abort]
    only. *)
Theorem members_have_one_writer op s :
  let r := run op s in
  (progress_ (this r.2) <> progress_ (this s) ->
   r.1 = true /\ exists progress, op = DoSetProgress progress)
  /\ (results_ (this r.2) <> results_ (this s) ->
      exists results, op = DoSetResults results)
  /\ (error_ (this r.2) <> error_ (this s) ->
      exists e, op = DoSetError e \/ op = DoAbort e).
Proof.
  simpl. rewrite run_unfold.
  destruct op as [to|progress|results|e| |e| ]; simpl;
    try (destruct (validated _ _ s) as [[obj|e']|]; simpl);
    try case_decide; try status_cases; frames;
    (split; [|split]); intros Hchanged;
    first [now destruct Hchanged | eauto].
Qed.

(** X8.  On a live instance, [SetResults] with results that differ tells the
    observers of the results first, then of the status, and asks for the
    removal last; [SetProgress] with progress that differs, on an instance
    not yet InProgress, tells them of the status first and of the progress
    after. *)
Theorem notification_order s json obj :
  IsTerminal (status_ (this s)) = false ->
  (validated GetResults json s = Some (inl obj) ->
   obj <> results_ (this s) ->
   SetResults json s
   = (true,
      {| this := with_status kDone (with_results obj (this s));
         error := error s;
         calls := calls s ++ notifications OnResultsChanged (this s)
                    ++ notifications OnStatusChanged (this s)
                    ++ removal (this s) |}))
  /\ (validated GetProgress json s = Some (inl obj) ->
      obj <> progress_ (this s) ->
      status_ (this s) <> kInProgress ->
      SetProgress json s
      = (true,
         {| this := with_progress obj (with_status kInProgress (this s));
            error := error s;
            calls := calls s ++ notifications OnStatusChanged (this s)
                       ++ notifications OnProgressChanged (this s) |})).
Proof.
  intros Hlive. split.
  - intros Hval Hne. rewrite (SetResults_valid _ _ _ Hval).
    rewrite decide_False by assumption. simpl.
    rewrite SetStatus_moved; simpl;
      [| intros Heq; rewrite <- Heq in Hlive; discriminate
       | discriminate | assumption].
    unfold removal_requested, moved, results_replaced. simpl.
    now rewrite <- !app_assoc.
  - intros Hval Hne Hst. rewrite (SetProgress_valid _ _ _ Hval).
    rewrite SetStatus_moved by (congruence || discriminate || assumption).
    simpl. rewrite decide_False by assumption.
    unfold progress_replaced, moved. simpl.
    now rewrite <- !app_assoc.
Qed.

Lemma validated_same pick json s s' :
  command_definition_ (this s') = command_definition_ (this s) ->
  error s' = error s ->
  validated pick json s' = validated pick json s.
Proof. intros Hdef Herr. unfold validated. now rewrite Hdef, Herr. Qed.

Lemma ToJson_state c :
  ToJson c !! "state" = Some (StringValue (EnumToString (status_ c))).
Proof.
  unfold ToJson, SetString, Set_, kCommand_Error, kCommand_State.
  destruct (error_ c); [rewrite lookup_insert_ne by discriminate|];
    apply lookup_insert_eq.
Qed.

Lemma ToJson_error c :
  ToJson c !! "error"
  = (fun e => DictionaryValue (ErrorInfoToJson e)) <$> error_ c.
Proof.
  unfold ToJson, SetString, Set_, kCommand_Id, kCommand_Name,
    kCommand_Parameters, kCommand_Progress, kCommand_Results,
    kCommand_State, kCommand_Error.
  destruct (error_ c); simpl; [apply lookup_insert_eq|].
  rewrite !lookup_insert_ne by discriminate. apply lookup_empty.
Qed.

(** X9.  [Pause] and [SetError] do not end a command: on a live instance,
    [SetError] followed by [SetProgress] with a valid document (and likewise
    [Pause] followed by it) both succeed and leave the instance InProgress
    with the new progress.  Resuming does not clear the error stored by
    [SetError]: it is still on the instance, and in its document. *)
Theorem resume_with_SetProgress s e json obj :
  IsTerminal (status_ (this s)) = false ->
  validated GetProgress json s = Some (inl obj) ->
  let after_error := run_all [DoSetError e; DoSetProgress json] s in
  let after_pause := run_all [DoPause; DoSetProgress json] s in
  (after_error.1 = [true; true]
   /\ status_ (this after_error.2) = kInProgress
   /\ progress_ (this after_error.2) = obj
   /\ GetError (this after_error.2) = e
   /\ ToJson (this after_error.2) !! "state"
      = Some (StringValue "inProgress")
   /\ ToJson (this after_error.2) !! "error"
      = (fun e => DictionaryValue (ErrorInfoToJson e)) <$> e)
  /\ (after_pause.1 = [true; true]
      /\ status_ (this after_pause.2) = kInProgress
      /\ progress_ (this after_pause.2) = obj
      /\ GetError (this after_pause.2) = GetError (this s)).
Proof.
  intros Hopen Hval. simpl. unfold mbind, State_bind, mret, State_ret.
  assert (Hresume : forall s1,
             status_ (this s1) = kError \/ status_ (this s1) = kPaused ->
             validated GetProgress json s1 = Some (inl obj) ->
             let r := run (DoSetProgress json) s1 in
             r.1 = true
             /\ status_ (this r.2) = kInProgress
             /\ progress_ (this r.2) = obj
             /\ error_ (this r.2) = error_ (this s1)).
  { intros s1 Hst Hval1. simpl. rewrite (SetProgress_valid _ _ _ Hval1).
    rewrite SetStatus_moved
      by (destruct Hst as [Hst|Hst]; rewrite ?Hst;
          (discriminate || reflexivity)).
    simpl. case_decide; simpl; auto. }
  split.
  - rewrite SetError_spec.
    assert (Hstep : exists s1,
               SetStatus kError (error_recorded e s) = (true, s1)
               /\ status_ (this s1) = kError
               /\ error_ (this s1) = e
               /\ validated GetProgress json s1 = Some (inl obj)).
    { status_cases; frames.
      - eexists. split; [reflexivity|]. repeat split; auto.
      - destruct Hwhy as [?|Hterm]; [discriminate | congruence].
      - eexists. split; [reflexivity|]. repeat split; auto. }
    destruct Hstep as (s1 & -> & Hst & Herr & Hval1).
    destruct (Hresume s1 (or_introl Hst) Hval1) as (Hok & Hst' & Hprog & Herr').
    simpl in *. destruct (SetProgress json s1) as [b s2]. simpl in *.
    subst b. unfold GetError.
    rewrite ToJson_state, ToJson_error, Hst', Herr', Herr.
    repeat split; auto.
  - unfold Pause.
    assert (Hstep : exists s1,
               SetStatus kPaused s = (true, s1)
               /\ status_ (this s1) = kPaused
               /\ error_ (this s1) = error_ (this s)
               /\ validated GetProgress json s1 = Some (inl obj)).
    { status_cases; frames.
      - eexists. split; [reflexivity|]. repeat split; auto.
      - destruct Hwhy as [?|Hterm]; [discriminate | congruence].
      - eexists. split; [reflexivity|]. repeat split; auto. }
    destruct Hstep as (s1 & -> & Hst & Herr & Hval1).
    destruct (Hresume s1 (or_intror Hst) Hval1) as (Hok & Hst' & Hprog & Herr').
    simpl in *. destruct (SetProgress json s1) as [b s2]. simpl in *.
    subst b. unfold GetError. rewrite Herr', Herr.
    repeat split; auto.
Qed.

End Lifecycle.

(** * Further properties of construction and of the name tables *)

Section Requests.
Context `{ErrorCodes} `{SchemaUtils}.

Lemma best_effort_id_GetString json :
  default "" (GetString kCommand_Id json)
  = best_effort_id (DictionaryValue json).
Proof.
  unfold best_effort_id, GetString, Get, kCommand_Id.
  now destruct (json !! "id") as [[]|].
Qed.

Lemma SetID_empty name origin definition parameters :
  SetID "" (new_CommandInstance name origin definition parameters)
  = new_CommandInstance name origin definition parameters.
Proof. reflexivity. Qed.

Lemma GetCommandParameters_valid json definition error doc parameters :
  (Get kCommand_Parameters json = None /\ doc = ∅)
  \/ Get kCommand_Parameters json = Some (DictionaryValue doc) ->
  TypedValueFromJson doc (GetParameters definition) error = inl parameters ->
  GetCommandParameters json definition error = (Some parameters, error).
Proof.
  intros [[Hno ->]|Hdoc] Hparse; unfold GetCommandParameters.
  - now rewrite Hno, Hparse.
  - rewrite Hdoc. simpl. now rewrite Hparse.
Qed.

Lemma GetCommandParameters_failed json definition error error' :
  GetCommandParameters json definition error = (None, error') ->
  is_Some error'.
Proof.
  unfold GetCommandParameters, AddTo.
  destruct (Get kCommand_Parameters json) as [v|];
    [destruct (GetAsDictionary v) as [params|]|]; simpl;
    try destruct (TypedValueFromJson _ _ _);
    intros [= <-]; eauto.
Qed.

(** X10.  A request that is an object, names a command of the dictionary and
    carries parameters that validate (an absent ['parameters'] counting as the
    empty object) is turned into a Queued instance with that name, origin and
    definition and the validated parameters, with default progress and
    results, no stored error, no observer and no queue; its id is the string
    under ['id'], empty when there is none.  The caller's error slot is left
    alone, and the document of the new instance gives the id and the name
    back, with state "queued" and without an error field. *)
Theorem FromJson_success json origin dictionary error name definition doc
    parameters :
  GetString kCommand_Name json = Some name ->
  FindCommand dictionary name = Some definition ->
  (Get kCommand_Parameters json = None /\ doc = ∅)
  \/ Get kCommand_Parameters json = Some (DictionaryValue doc) ->
  TypedValueFromJson doc (GetParameters definition) error = inl parameters ->
  let id := best_effort_id (DictionaryValue json) in
  let c := {| id_ := id;
              name_ := name;
              origin_ := origin;
              command_definition_ := Some definition;
              parameters_ := parameters;
              progress_ := ValueMap_default;
              results_ := ValueMap_default;
              status_ := kQueued;
              error_ := None;
              observers_ := [];
              queue_ := None |} in
  FromJson (DictionaryValue json) origin dictionary error
  = {| instance := Some c; command_id := id; error_out := error |}
  /\ ToJson c !! "id" = Some (StringValue id)
  /\ ToJson c !! "name" = Some (StringValue name)
  /\ ToJson c !! "state" = Some (StringValue "queued")
  /\ ToJson c !! "parameters"
     = Some (DictionaryValue (TypedValueToJson parameters))
  /\ ToJson c !! "error" = None.
Proof.
  intros Hname Hfind Hdoc Hparse id c.
  split.
  - unfold FromJson. simpl.
    rewrite Hname, Hfind.
    rewrite (GetCommandParameters_valid _ _ _ _ _ Hdoc Hparse).
    rewrite best_effort_id_GetString. fold id.
    f_equal. f_equal. case_decide as Hid; [|reflexivity].
    subst c. now rewrite Hid.
  - unfold ToJson, SetString, Set_, kCommand_Id, kCommand_Name,
      kCommand_Parameters, kCommand_Progress, kCommand_Results,
      kCommand_State, kCommand_Error. simpl.
    repeat split;
      repeat (first [ rewrite lookup_insert_eq; reflexivity
                    | rewrite lookup_insert_ne by discriminate ]);
      apply lookup_empty.
Qed.

(** X11.  The error on top of the slot names the first defect of a rejected
    request, in the order: not an object (object-expected, whatever else the
    value is), name absent or not a string (property-missing, whatever the
    parameters are), name unknown (invalid-command-name, whatever the
    parameters are), parameters rejected (command-failed, wrapped around the
    error that [GetCommandParameters] reported).  In the first three cases
    the error wraps what the slot held before. *)
Theorem FromJson_first_defect value origin dictionary error :
  let r := FromJson value origin dictionary error in
  instance r = None ->
  exists e,
    error_out r = Some e
    /\ ((GetAsDictionary value = None
         /\ GetDomain e = json_kDomain
         /\ GetCode e = kObjectExpected
         /\ GetInnerError e = error)
        \/ (exists json,
              value = DictionaryValue json
              /\ GetString kCommand_Name json = None
              /\ GetDomain e = commands_kDomain
              /\ GetCode e = kPropertyMissing
              /\ GetInnerError e = error)
        \/ (exists json name,
              value = DictionaryValue json
              /\ GetString kCommand_Name json = Some name
              /\ FindCommand dictionary name = None
              /\ GetDomain e = commands_kDomain
              /\ GetCode e = kInvalidCommandName
              /\ GetInnerError e = error)
        \/ (exists json name definition inner,
              value = DictionaryValue json
              /\ GetString kCommand_Name json = Some name
              /\ FindCommand dictionary name = Some definition
              /\ GetCommandParameters json definition error
                 = (None, Some inner)
              /\ GetDomain e = commands_kDomain
              /\ GetCode e = kCommandFailed
              /\ GetInnerError e = Some inner)).
Proof.
  simpl. unfold FromJson.
  destruct (GetAsDictionary value) as [json|] eqn:Hobj.
  2:{ intros _. eexists. split; [reflexivity|]. left. now repeat split. }
  assert (value = DictionaryValue json) as ->
    by (destruct value; try discriminate; now injection Hobj as ->).
  destruct (GetString kCommand_Name json) as [name|] eqn:Hname.
  2:{ intros _. eexists. split; [reflexivity|].
      right. left. exists json. now repeat split. }
  destruct (FindCommand dictionary name) as [d|] eqn:Hfind.
  2:{ intros _. eexists. split; [reflexivity|].
      right. right. left. exists json, name. now repeat split. }
  destruct (GetCommandParameters json d error) as [[p|] e'] eqn:Hpar;
    [discriminate|].
  intros _.
  destruct (GetCommandParameters_failed _ _ _ _ Hpar) as [inner ->].
  eexists. split; [reflexivity|].
  right. right. right. exists json, name, d, inner. now repeat split.
Qed.

(** X16.  Of a request object, [FromJson] reads the fields ['id'], ['name']
    and ['parameters'] and nothing else: two requests that agree on these
    three are accepted or rejected alike, with the same instance, id and
    error. *)
Theorem FromJson_reads_three_fields (json json' : Dictionary) origin
    dictionary error :
  json !! "id" = json' !! "id" ->
  json !! "name" = json' !! "name" ->
  json !! "parameters" = json' !! "parameters" ->
  FromJson (DictionaryValue json) origin dictionary error
  = FromJson (DictionaryValue json') origin dictionary error.
Proof.
  intros Hid Hname Hparams.
  assert (Hpar : forall definition,
             GetCommandParameters json definition error
             = GetCommandParameters json' definition error).
  { intros d. unfold GetCommandParameters, Get, kCommand_Parameters.
    now rewrite Hparams. }
  unfold FromJson, GetString, Get, kCommand_Id, kCommand_Name. simpl.
  rewrite Hid, Hname.
  destruct (json' !! "name") as [[ | | | |name| | ]|]; try reflexivity.
  destruct (FindCommand dictionary name) as [d|]; [|reflexivity].
  now rewrite Hpar.
Qed.

(** ** Name tables *)

Lemma FindNameById_in {T} `{EqDecision T} (table : list (T * string)) id :
  id ∈ table.*1 -> FindNameById table id ∈ table.*2.
Proof.
  induction table as [|[k n] rest IH]; simpl.
  - intros Hin. now apply elem_of_nil in Hin.
  - intros Hin. destruct (decide (k = id)) as [->|Hk].
    + apply list_elem_of_here.
    + apply list_elem_of_further, IH.
      apply elem_of_cons in Hin as [Heq|Hin]; [congruence | assumption].
Qed.

(** In a table without repeated names, looking up the name of a listed id
    and then the id of that name gives the id back. *)
Lemma table_round_trip {T} `{EqDecision T} (table : list (T * string)) id :
  NoDup table.*2 ->
  id ∈ table.*1 ->
  FindIdByName table (FindNameById table id) = Some id.
Proof.
  induction table as [|[k n] rest IH]; simpl.
  - intros _ Hin. now apply elem_of_nil in Hin.
  - intros Hnodup Hin. apply NoDup_cons in Hnodup as [Hfresh Hnodup].
    destruct (decide (k = id)) as [->|Hk].
    + now rewrite decide_True.
    + apply elem_of_cons in Hin as [Heq|Hin]; [congruence|].
      rewrite decide_False.
      * now apply IH.
      * intros Heq. apply Hfresh. rewrite Heq. now apply FindNameById_in.
Qed.

(** X12.  The name tables of [command_instance.cc] can be read both ways:
    every status and every origin has a name, and [StringToEnum] applied to
    that name gives the status (resp. the origin) back, so distinct statuses
    have distinct names. *)
Theorem status_names_round_trip :
  (forall status : CommandStatus,
     StringToEnum kMapStatus (EnumToString status) = Some status)
  /\ (forall origin : CommandOrigin,
        StringToEnum kMapOrigin (FindNameById kMapOrigin origin) = Some origin)
  /\ (forall a b : CommandStatus, EnumToString a = EnumToString b -> a = b).
Proof.
  assert (Hstatus : forall status : CommandStatus,
             StringToEnum kMapStatus (EnumToString status) = Some status).
  { intros status. apply table_round_trip.
    - vm_compute. repeat (apply NoDup_cons; split;
        [rewrite ?elem_of_cons, elem_of_nil; intuition discriminate|]).
      apply NoDup_nil_2.
    - destruct status; vm_compute;
        repeat (first [apply list_elem_of_here | apply list_elem_of_further]). }
  split; [exact Hstatus|]. split.
  - intros origin. apply table_round_trip.
    + vm_compute. repeat (apply NoDup_cons; split;
        [rewrite ?elem_of_cons, elem_of_nil; intuition discriminate|]).
      apply NoDup_nil_2.
    + destruct origin; vm_compute;
        repeat (first [apply list_elem_of_here | apply list_elem_of_further]).
  - intros a b Heq. apply (f_equal (StringToEnum kMapStatus)) in Heq.
    rewrite !Hstatus in Heq. congruence.
Qed.

End Requests.

(** * Properties of the lock handler *)

Section LockHandlerProperties.
Context `{ErrorCodes} `{SchemaUtils}.
Import LockHandler.

Lemma lock_name_inv name state :
  StringToEnum kLockMapMethod name = Some state ->
  FindNameById kLockMapMethod state = name.
Proof.
  unfold StringToEnum, kLockMapMethod. cbn [FindIdByName].
  destruct (decide ("locked" = name)) as [<-|_];
    [intros [= <-]; reflexivity|].
  destruct (decide ("unlocked" = name)) as [<-|_];
    [intros [= <-]; reflexivity|].
  destruct (decide ("partiallyLocked" = name)) as [<-|_];
    [intros [= <-]; reflexivity | discriminate].
Qed.

(** X13.  The lock states and their names correspond one to one: a state's
    name is read back as that state, and the names that [StringToEnum]
    accepts are exactly "locked", "unlocked" and "partiallyLocked". *)
Theorem lock_state_names (state : LockState) (name : string) :
  StringToEnum kLockMapMethod (FindNameById kLockMapMethod state) = Some state
  /\ (StringToEnum kLockMapMethod name = Some state
      <-> FindNameById kLockMapMethod state = name)
  /\ (is_Some (StringToEnum kLockMapMethod name)
      <-> name ∈ ["locked"; "unlocked"; "partiallyLocked"]).
Proof.
  assert (Hback : forall st,
             StringToEnum kLockMapMethod (FindNameById kLockMapMethod st)
             = Some st)
    by (intros []; reflexivity).
  split; [apply Hback|]. split.
  - split; [apply lock_name_inv|]. intros <-. apply Hback.
  - split.
    + intros [st Hst]. apply lock_name_inv in Hst as <-.
      destruct st; vm_compute FindNameById;
        repeat (first [apply list_elem_of_here | apply list_elem_of_further]).
    + rewrite !elem_of_cons, elem_of_nil.
      intros [->|[->|[->|[]]]]; eexists; reflexivity.
Qed.

Lemma Abort_live (s : Frame) e :
  IsTerminal (status_ (this s)) = false ->
  Abort e s
  = (true,
     {| this := with_status kAborted (with_error e (this s));
        error := error s;
        calls := calls s ++ notifications OnStatusChanged (this s)
                   ++ removal (this s) |}).
Proof.
  intros Hopen. rewrite Abort_spec.
  rewrite SetStatus_moved; simpl;
    [| intros Heq; rewrite <- Heq in Hopen; discriminate
     | discriminate | assumption].
  unfold removal_requested, moved. simpl. now rewrite <- app_assoc.
Qed.

(** X14.  When the parameters of the command hold no string under
    ["lockedState"], or a string that names no lock state, the handler aborts
    a live command with its invalid-parameters error: the command ends
    Aborted, the observers are told and the removal is requested; the state
    of the lock is not touched and no state update is sent. *)
Theorem handler_aborts_on_bad_state (h : LockHandler) (cmd : Frame) :
  GetString "lockedState" (Command.GetParameters (this cmd))
    ≫= StringToEnum kLockMapMethod = None ->
  IsTerminal (status_ (this cmd)) = false ->
  OnLockSetConfig h (Some cmd)
  = (h,
     Some {| this := with_status kAborted
                       (with_error InvalidParameters (this cmd));
             error := error cmd;
             calls := calls cmd ++ notifications OnStatusChanged (this cmd)
                        ++ removal (this cmd) |}).
Proof.
  intros Hbad Hopen.
  assert (Habort : (with_nullptr (Abort InvalidParameters) cmd).2
                   = {| this := with_status kAborted
                                  (with_error InvalidParameters (this cmd));
                        error := error cmd;
                        calls := calls cmd
                                   ++ notifications OnStatusChanged (this cmd)
                                   ++ removal (this cmd) |}).
  { unfold with_nullptr. rewrite Abort_live by assumption. reflexivity. }
  unfold OnLockSetConfig.
  destruct (GetString "lockedState" (Command.GetParameters (this cmd)))
    as [requested|].
  - change (StringToEnum kLockMapMethod requested = None) in Hbad.
    rewrite Hbad. now rewrite Habort.
  - now rewrite Habort.
Qed.

(** X15.  When the parameters name a lock state, the handler takes the lock
    to that state, sends a state update (carrying the requested name under
    lock / lockedState) exactly when the state differs from the current one,
    and completes the command with empty results: if the command is live and
    the empty document validates against the results schema, the command
    ends Done and its removal is requested. *)
Theorem handler_completes (h : LockHandler) (cmd : Frame) name state
    definition obj :
  GetString "lockedState" (Command.GetParameters (this cmd)) = Some name ->
  StringToEnum kLockMapMethod name = Some state ->
  let r := OnLockSetConfig h (Some cmd) in
  lock_state_ r.1 = state
  /\ state_updates r.1
     = state_updates h
         ++ (if decide (state = lock_state_ h) then []
             else [ {[ "lock" := DictionaryValue
                                   {[ "lockedState" := StringValue name ]} ]} ])
  /\ (IsTerminal (status_ (this cmd)) = false ->
      command_definition_ (this cmd) = Some definition ->
      TypedValueFromJson ∅ (GetResults definition) None = inl obj ->
      exists cmd',
        r.2 = Some cmd'
        /\ status_ (this cmd') = kDone
        /\ results_ (this cmd') = obj
        /\ error cmd' = error cmd
        /\ exists notes,
             Forall (notifies (observers_ (this cmd))) notes
             /\ calls cmd' = calls cmd ++ notes ++ removal (this cmd)).
Proof.
  intros Hname Hstate r. subst r. unfold OnLockSetConfig.
  rewrite Hname, Hstate. cbn [fst snd].
  split; [|split].
  - case_decide as Hne; [reflexivity|]. symmetry. now apply dec_stable.
  - destruct (decide (state = lock_state_ h)) as [Heq|Hne].
    + rewrite decide_False by (intros Hc; now apply Hc).
      now rewrite app_nil_r.
    + rewrite decide_True by assumption. unfold UpdateLockState.
      cbn [lock_state_ state_updates].
      now rewrite (lock_name_inv _ _ Hstate).
  - intros Hopen Hdef Hvalid.
    unfold with_nullptr, Complete.
    set (s0 := {| this := this cmd; error := None; calls := calls cmd |}).
    assert (Hval : validated GetResults ∅ s0 = Some (inl obj))
      by (unfold validated; subst s0; simpl; rewrite Hdef; simpl;
          now rewrite Hvalid).
    rewrite (SetResults_valid _ _ _ Hval). simpl.
    assert (Hdone : forall s1,
               status_ (this s1) = status_ (this cmd) ->
               SetStatus kDone s1 = (true, moved kDone s1)).
    { intros s1 Hst. apply SetStatus_moved; rewrite ?Hst;
        [intros Heq; rewrite <- Heq in Hopen | | ]; (discriminate || assumption). }
    destruct (decide (obj = results_ (this cmd))) as [Heq|Hne].
    + rewrite Hdone by reflexivity. eexists. split; [reflexivity|]. simpl.
      repeat split; [now symmetry|].
      exists (notifications OnStatusChanged (this cmd)).
      split; [apply notifications_go_to_observers|].
      now rewrite <- app_assoc.
    + rewrite Hdone by reflexivity. eexists. split; [reflexivity|]. simpl.
      repeat split.
      exists (notifications OnResultsChanged (this cmd)
                ++ notifications OnStatusChanged (this cmd)).
      split; [apply Forall_app_2; apply notifications_go_to_observers|].
      now rewrite <- !app_assoc.
Qed.

End LockHandlerProperties.

(** * Properties of writing a code point *)

Section WriteUnicodeCharacterProperties.
Import utf_string_conversion_utils.
Variable CBU8_MAX_LENGTH : nat.
Variable CBU8_APPEND_UNSAFE : list Z -> nat -> Z -> list Z * nat.
Variable size_t_bits : Z.

Lemma resize_grow (output : list Z) n :
  resize (length output + n) output = output ++ replicate n 0%Z.
Proof.
  unfold resize. rewrite take_ge by lia. f_equal. f_equal. lia.
Qed.

Lemma resize_cut (buffer : list Z) n :
  n <= length buffer -> resize n buffer = take n buffer.
Proof.
  intros Hle. unfold resize.
  replace (n - length buffer) with 0 by lia. apply app_nil_r.
Qed.

(** X17.  [WriteUnicodeCharacter] only appends.  For a code point up to 0x7f
    it appends that one byte and returns 1.  For a larger one, provided the
    macro, run on the output extended by [CBU8_MAX_LENGTH] zero bytes, has
    left the bytes before the offset alone and has moved the offset forward
    within the buffer, the new output is the old one followed by the bytes
    between the old and the new offset, and the value returned is their
    number. *)
Theorem WriteUnicodeCharacter_appends (code_point : Z) (output : list Z) :
  let write :=
    WriteUnicodeCharacter CBU8_MAX_LENGTH CBU8_APPEND_UNSAFE size_t_bits in
  let buffer := output ++ replicate CBU8_MAX_LENGTH 0%Z in
  let written := CBU8_APPEND_UNSAFE buffer (length output) code_point in
  ((code_point <= 0x7f)%Z ->
   write code_point output = (1%Z, output ++ [code_point]))
  /\ ((0x7f < code_point)%Z ->
      take (length output) written.1 = output ->
      length output <= written.2 <= length written.1 ->
      (Z.of_nat written.2 - Z.of_nat (length output) < 2 ^ size_t_bits)%Z ->
      let added :=
        take (written.2 - length output) (drop (length output) written.1) in
      write code_point output
      = (Z.of_nat (length added), output ++ added)
      /\ length added = written.2 - length output).
Proof.
  simpl. split.
  - intros Hascii. unfold WriteUnicodeCharacter. now rewrite decide_True.
  - intros Hwide Hprefix [Hlow Hhigh] Hfits.
    unfold WriteUnicodeCharacter. rewrite decide_False by lia.
    rewrite resize_grow.
    destruct (CBU8_APPEND_UNSAFE (output ++ replicate CBU8_MAX_LENGTH 0%Z)
                (length output) code_point) as [buffer offset] eqn:Hmacro.
    simpl in *.
    assert (Hlen : length (take (offset - length output)
                             (drop (length output) buffer))
                   = offset - length output)
      by (rewrite length_take, length_drop; lia).
    split; [|exact Hlen]. f_equal.
    + rewrite Hlen, Nat2Z.inj_sub by lia. apply Z.mod_small. lia.
    + rewrite resize_cut by lia.
      replace offset with (length output + (offset - length output)) at 1
        by lia.
      rewrite <- take_take_drop. now rewrite Hprefix.
Qed.

End WriteUnicodeCharacterProperties.

(** * The lock example, run through the model *)

Import lock.

(** On a Cancelled [lock.setConfig], [SetResults] with a valid document is
    rejected; the document has been stored by then.  On a Done one it is
    answered with success, and the document has been stored as well. *)
Lemma terminal_finality_witness :
  (IsTerminal (status_ (this (on (command_in kCancelled)))) = true
   /\ attempts (DoSetResults unlocked) (on (command_in kCancelled))
      = Some kDone
   /\ rejected kDone (on (command_in kCancelled))
        (run (DoSetResults unlocked) (on (command_in kCancelled)))
   /\ results_ (this (run (DoSetResults unlocked)
                         (on (command_in kCancelled))).2)
      = {[ "lockedState" := "unlocked" ]})
  /\ (IsTerminal (status_ (this (on (command_in kDone)))) = true
      /\ attempts (DoSetResults unlocked) (on (command_in kDone)) = Some kDone
      /\ (run (DoSetResults unlocked) (on (command_in kDone))).1 = true
      /\ status_ (this (run (DoSetResults unlocked)
                           (on (command_in kDone))).2) = kDone
      /\ results_ (this (run (DoSetResults unlocked)
                            (on (command_in kDone))).2)
         = {[ "lockedState" := "unlocked" ]}).
Proof.
  assert (Hterm : IsTerminal (status_ (this (on (command_in kCancelled)))) = true)
    by reflexivity.
  assert (Hatt : attempts (DoSetResults unlocked) (on (command_in kCancelled))
                 = Some kDone)
    by (vm_compute; reflexivity).
  assert (Hne : kDone <> status_ (this (on (command_in kCancelled))))
    by discriminate.
  assert (Hterm' : IsTerminal (status_ (this (on (command_in kDone)))) = true)
    by reflexivity.
  assert (Hatt' : attempts (DoSetResults unlocked) (on (command_in kDone))
                  = Some kDone)
    by (vm_compute; reflexivity).
  assert (Heq : kDone = status_ (this (on (command_in kDone))))
    by reflexivity.
  destruct (proj1 (terminal_finality (on (command_in kCancelled))
                     (DoSetResults unlocked) kDone Hterm Hatt) Hne)
    as (Hrej & Hres & _).
  destruct (proj2 (terminal_finality (on (command_in kDone))
                     (DoSetResults unlocked) kDone Hterm' Hatt') Heq)
    as (Hok & _ & Hst & _ & Hres' & _).
  split.
  - split; [exact Hterm|]. split; [exact Hatt|]. split; [exact Hrej|].
    rewrite Hres. vm_compute. reflexivity.
  - split; [exact Hterm'|]. split; [exact Hatt'|]. split; [exact Hok|].
    split; [exact Hst|]. rewrite Hres'. vm_compute. reflexivity.
Defined.

(** C1, as stated, fails on the code in two ways.  A Done instance asked for
    Done again is answered with success, not with InvalidStateTransition; and
    [SetResults] on a Cancelled instance, although rejected, has changed the
    results. *)
Lemma terminal_finality_counterexample :
  (IsTerminal (status_ (this (on (command_in kDone)))) = true
   /\ SetStatus kDone (on (command_in kDone)) = (true, on (command_in kDone)))
  /\ (IsTerminal (status_ (this (on (command_in kCancelled)))) = true
      /\ (SetResults unlocked (on (command_in kCancelled))).1 = false
      /\ results_ (this (on (command_in kCancelled))) = ∅
      /\ results_ (this (SetResults unlocked (on (command_in kCancelled))).2)
         = {[ "lockedState" := "unlocked" ]}
      /\ results_ (this (SetResults unlocked (on (command_in kCancelled))).2)
         <> results_ (this (on (command_in kCancelled)))).
Proof.
  split; [split; vm_compute; reflexivity|].
  do 4 (split; [vm_compute; reflexivity|]).
  intros Heq.
  apply (f_equal (fun m : gmap string string => m !! "lockedState")) in Heq.
  vm_compute in Heq. discriminate.
Qed.

Lemma no_requeue_witness :
  status_ (this (on (command_in kPaused))) <> kQueued
  /\ SetStatus kQueued (on (command_in kPaused))
     = (false, refused kQueued (on (command_in kPaused))).
Proof.
  assert (Hne : status_ (this (on (command_in kPaused))) <> kQueued)
    by discriminate.
  split; [exact Hne|].
  exact (proj1 (no_requeue (on (command_in kPaused))) Hne).
Defined.

(** C2, as stated, fails on a Queued instance: asked for Queued, [SetStatus]
    answers success and reports no error. *)
Lemma no_requeue_counterexample :
  status_ (this (on command)) = kQueued
  /\ (SetStatus kQueued (on command)).1 = true
  /\ error (SetStatus kQueued (on command)).2 = None.
Proof. split; [|split]; vm_compute; reflexivity. Qed.

Lemma SetProgress_contract_witness :
  validated GetProgress unlocked (on command)
  = Some (inl {[ "lockedState" := "unlocked" ]})
  /\ SetProgress unlocked (on command)
     = (true, progress_replaced {[ "lockedState" := "unlocked" ]}
                (moved kInProgress (on command))).
Proof.
  assert (Hval : validated GetProgress unlocked (on command)
                 = Some (inl {[ "lockedState" := "unlocked" ]}))
    by (vm_compute; reflexivity).
  split; [exact Hval|].
  destruct (SetProgress_contract (on command) unlocked _ Hval)
    as (Hres & _ & _ & Hdiff).
  apply injective_projections.
  - rewrite Hres. reflexivity.
  - simpl. apply Hdiff; [reflexivity|].
    intros Heq.
    apply (f_equal (fun m : gmap string string => m !! "lockedState")) in Heq.
    vm_compute in Heq. discriminate.
Defined.

(** [set_results] on the Queued command of the scenario: Done, removal
    requested; and a document outside the enumeration changes nothing. *)
Lemma SetResults_contract_witness :
  (validated GetResults unlocked (on command)
   = Some (inl {[ "lockedState" := "unlocked" ]})
   /\ (SetResults unlocked (on command)).1 = true
   /\ status_ (this (SetResults unlocked (on command)).2) = kDone
   /\ results_ (this (SetResults unlocked (on command)).2)
      = {[ "lockedState" := "unlocked" ]})
  /\ (validated GetResults unlocked (on (command_in kExpired))
      = Some (inl {[ "lockedState" := "unlocked" ]})
      /\ rejected kDone (on (command_in kExpired))
           (SetResults unlocked (on (command_in kExpired))))
  /\ (exists e,
        validated GetResults open (on command) = Some (inr e)
        /\ SetResults open (on command) = (false, invalid e (on command))).
Proof.
  assert (Hval : validated GetResults unlocked (on command)
                 = Some (inl {[ "lockedState" := "unlocked" ]}))
    by (vm_compute; reflexivity).
  assert (Hval' : validated GetResults unlocked (on (command_in kExpired))
                  = Some (inl {[ "lockedState" := "unlocked" ]}))
    by (vm_compute; reflexivity).
  split; [|split].
  - destruct (proj1 (SetResults_contract (on command) unlocked) _ Hval)
      as (_ & Hres & _ & Hok & _).
    destruct Hok as [Htrue Hdone]; [left; reflexivity|].
    split; [exact Hval|]. split; [exact Htrue|]. split; [exact Hdone|].
    exact Hres.
  - destruct (proj1 (SetResults_contract (on (command_in kExpired)) unlocked)
                _ Hval')
      as (_ & _ & _ & _ & Hrej).
    split; [exact Hval'|]. apply Hrej; [reflexivity | discriminate].
  - eexists. split; [vm_compute; reflexivity|].
    apply (proj2 (SetResults_contract (on command) open)).
    vm_compute. reflexivity.
Defined.

(** C5, as stated, fails on a Cancelled instance: the document validates, yet
    the instance is not taken to Done; the call returns failure and the
    status is still Cancelled. *)
Lemma SetResults_contract_counterexample :
  validated GetResults unlocked (on (command_in kCancelled))
  = Some (inl {[ "lockedState" := "unlocked" ]})
  /\ (SetResults unlocked (on (command_in kCancelled))).1 = false
  /\ status_ (this (SetResults unlocked (on (command_in kCancelled))).2)
     = kCancelled
  /\ status_ (this (SetResults unlocked (on (command_in kCancelled))).2)
     <> kDone.
Proof.
  do 3 (split; [vm_compute; reflexivity|]).
  vm_compute. discriminate.
Qed.

(** The scenario of the unknown command: [{"name":"unknown.cmd"}]. *)
Lemma FromJson_failure_witness :
  GetString kCommand_Name unknown_request = Some "unknown.cmd"
  /\ FindCommand dictionary "unknown.cmd" = None
  /\ instance (FromJson (DictionaryValue unknown_request) kCloud dictionary None)
     = None
  /\ command_id (FromJson (DictionaryValue unknown_request) kCloud dictionary None)
     = ""
  /\ exists e,
       error_out (FromJson (DictionaryValue unknown_request) kCloud dictionary None)
       = Some e
       /\ GetCode e = kInvalidCommandName.
Proof.
  assert (Hname : GetString kCommand_Name unknown_request = Some "unknown.cmd")
    by (vm_compute; reflexivity).
  assert (Hfind : FindCommand dictionary "unknown.cmd" = None)
    by (vm_compute; reflexivity).
  destruct (FromJson_failure (DictionaryValue unknown_request) kCloud
              dictionary None) as (_ & _ & Hunknown).
  destruct (Hunknown unknown_request "unknown.cmd" eq_refl Hname Hfind)
    as (Hnone & Hid & e & Herr & _ & Hcode & _).
  split; [exact Hname|]. split; [exact Hfind|]. split; [exact Hnone|].
  split; [rewrite Hid; vm_compute; reflexivity|].
  exists e. split; [exact Herr | exact Hcode].
Defined.



(** [Abort] on a command that is already Done: refused, removal requested. *)
Lemma removal_always_requested_witness :
  queue_ (this (on (command_in kDone))) = Some 0
  /\ (Abort (Some handler_error) (on (command_in kDone))).1 = false
  /\ calls (Abort (Some handler_error) (on (command_in kDone))).2
     = [DelayedRemove 0 "1"]
  /\ (Cancel (on (command_in kDone))).1 = false
  /\ calls (Cancel (on (command_in kDone))).2 = [DelayedRemove 0 "1"].
Proof.
  assert (Hq : queue_ (this (on (command_in kDone))) = Some 0) by reflexivity.
  destruct (removal_always_requested (on (command_in kDone)) 0 Hq)
    as (_ & _ & Hterm & _).
  destruct (Hterm eq_refl) as (Habort & Hcancel).
  destruct (Habort (Some handler_error)) as (Hfalse & _ & Hcalls);
    [discriminate|].
  destruct Hcancel as (Hfalse' & _ & Hcalls'); [discriminate|].
  split; [exact Hq|]. split; [exact Hfalse|]. split; [exact Hcalls|].
  split; [exact Hfalse'|exact Hcalls'].
Defined.

(** C9, as stated, fails on the instances that are already in the status the
    call asks for: [Abort] on an Aborted instance, and [Cancel] on a Cancelled
    one, return success and report no error (the removal is requested). *)
Lemma removal_always_requested_counterexample :
  (IsTerminal (status_ (this (on (command_in kAborted)))) = true
   /\ Abort (Some handler_error) (on (command_in kAborted))
      = (true, {| this := with_error (Some handler_error) (command_in kAborted);
                  error := None;
                  calls := [DelayedRemove 0 "1"] |}))
  /\ (IsTerminal (status_ (this (on (command_in kCancelled)))) = true
      /\ Cancel (on (command_in kCancelled))
         = (true, {| this := command_in kCancelled;
                     error := None;
                     calls := [DelayedRemove 0 "1"] |})).
Proof. split; split; vm_compute; reflexivity. Qed.

(** [SetError] with a null error on a Done command that carries an error:
    the call fails and the error is gone. *)
Lemma error_stored_before_transition_witness :
  IsTerminal (status_ (this (on done_with_error))) = true
  /\ GetError (this (on done_with_error)) = Some handler_error
  /\ (SetError None (on done_with_error)).1 = false
  /\ GetError (this (SetError None (on done_with_error)).2) = None
  /\ this (SetError None (on done_with_error)).2 <> this (on done_with_error)
  /\ (Abort None (on done_with_error)).1 = false
  /\ GetError (this (Abort None (on done_with_error)).2) = None.
Proof.
  assert (Hterm : IsTerminal (status_ (this (on done_with_error))) = true)
    by reflexivity.
  destruct (error_stored_before_transition (on done_with_error) None)
    as (Hset & Habort & Hset_fails & Habort_fails).
  destruct (Hset_fails Hterm) as (Hfalse & _ & _ & Hchanged).
  destruct (Habort_fails Hterm) as (Hfalse' & _); [discriminate|].
  split; [exact Hterm|]. split; [reflexivity|]. split; [exact Hfalse|].
  split; [exact Hset|]. split; [apply Hchanged; discriminate|].
  split; [exact Hfalse'|exact Habort].
Defined.

(** * The further properties, run on the lock example *)

Import lock_runs.

Lemma SetStatus_decision_witness :
  (IsTerminal (status_ (this (on command))) = false /\ kPaused <> kQueued)
  /\ (SetStatus kPaused (on command)).1 = true
  /\ status_ (this (SetStatus kPaused (on command)).2) = kPaused
  /\ calls (SetStatus kPaused (on command)).2
     = [Notify 7 OnStatusChanged; Notify 8 OnStatusChanged].
Proof.
  assert (Hwhy : IsTerminal (status_ (this (on command))) = false
                 /\ kPaused <> kQueued)
    by (split; [reflexivity | discriminate]).
  destruct (SetStatus_decision (on command) kPaused) as (Hiff & Hok & _).
  assert (Htrue : (SetStatus kPaused (on command)).1 = true)
    by (apply Hiff; right; exact Hwhy).
  destruct (Hok Htrue) as (Hst & _ & Hcalls).
  split; [exact Hwhy|]. split; [exact Htrue|]. split; [exact Hst|].
  exact Hcalls.
Defined.

Lemma terminal_is_absorbing_witness :
  IsTerminal (status_ (this (on (command_in kCancelled)))) = true
  /\ status_ (this (run_all late_calls (on (command_in kCancelled))).2)
     = kCancelled.
Proof.
  split; [reflexivity|].
  exact (terminal_is_absorbing late_calls (on (command_in kCancelled)) eq_refl).
Defined.

Lemma Queued_is_never_reentered_witness :
  status_ (this (on (command_in kInProgress))) <> kQueued
  /\ status_ (this (run_all requeue_calls (on (command_in kInProgress))).2)
     <> kQueued.
Proof.
  assert (Hne : status_ (this (on (command_in kInProgress))) <> kQueued)
    by discriminate.
  split; [exact Hne|].
  exact (Queued_is_never_reentered requeue_calls
           (on (command_in kInProgress)) Hne).
Defined.

Lemma failure_is_reported_witness :
  (run (DoSetProgress open) (on command)).1 = false
  /\ is_Some (error (run (DoSetProgress open) (on command)).2)
  /\ status_ (this (run (DoSetProgress open) (on command)).2) = kQueued.
Proof.
  assert (Hfalse : (run (DoSetProgress open) (on command)).1 = false)
    by (vm_compute; reflexivity).
  destruct (proj2 (failure_is_reported (DoSetProgress open) (on command))
              Hfalse) as (Herr & Hst & _).
  split; [exact Hfalse|]. split; [exact Herr | exact Hst].
Defined.

Lemma members_have_one_writer_witness :
  results_ (this (run (DoSetResults unlocked) (on command)).2)
  <> results_ (this (on command))
  /\ exists results, DoSetResults unlocked = DoSetResults results.
Proof.
  assert (Hchanged : results_ (this (run (DoSetResults unlocked)
                                       (on command)).2)
                     <> results_ (this (on command))).
  { intros Heq.
    apply (f_equal (fun m : gmap string string => m !! "lockedState")) in Heq.
    vm_compute in Heq. discriminate. }
  split; [exact Hchanged|].
  exact (proj1 (proj2 (members_have_one_writer (DoSetResults unlocked)
                         (on command))) Hchanged).
Defined.

Lemma notification_order_witness :
  IsTerminal (status_ (this (on command))) = false
  /\ validated GetResults unlocked (on command)
     = Some (inl {[ "lockedState" := "unlocked" ]})
  /\ calls (SetResults unlocked (on command)).2
     = [ Notify 7 OnResultsChanged; Notify 8 OnResultsChanged;
         Notify 7 OnStatusChanged; Notify 8 OnStatusChanged;
         DelayedRemove 0 "1" ].
Proof.
  assert (Hval : validated GetResults unlocked (on command)
                 = Some (inl {[ "lockedState" := "unlocked" ]}))
    by (vm_compute; reflexivity).
  assert (Hne : ({[ "lockedState" := "unlocked" ]} : gmap string string)
                <> results_ (this (on command))).
  { intros Heq.
    apply (f_equal (fun m : gmap string string => m !! "lockedState")) in Heq.
    vm_compute in Heq. discriminate. }
  split; [reflexivity|]. split; [exact Hval|].
  rewrite (proj1 (notification_order (on command) unlocked _ eq_refl)
             Hval Hne).
  reflexivity.
Defined.

Lemma resume_with_SetProgress_witness :
  IsTerminal (status_ (this (on command))) = false
  /\ validated GetProgress unlocked (on command)
     = Some (inl {[ "lockedState" := "unlocked" ]})
  /\ (run_all [DoSetError (Some handler_error); DoSetProgress unlocked]
              (on command)).1 = [true; true]
  /\ status_ (this (run_all [DoSetError (Some handler_error);
                              DoSetProgress unlocked] (on command)).2)
     = kInProgress
  /\ GetError (this (run_all [DoSetError (Some handler_error);
                               DoSetProgress unlocked] (on command)).2)
     = Some handler_error.
Proof.
  assert (Hval : validated GetProgress unlocked (on command)
                 = Some (inl {[ "lockedState" := "unlocked" ]}))
    by (vm_compute; reflexivity).
  destruct (resume_with_SetProgress (on command) (Some handler_error)
              unlocked _ eq_refl Hval)
    as ((Hok & Hst & _ & Herr & _) & _).
  split; [reflexivity|]. split; [exact Hval|]. split; [exact Hok|].
  split; [exact Hst | exact Herr].
Defined.

Lemma FromJson_success_witness :
  GetString kCommand_Name request = Some "lock.setConfig"
  /\ FindCommand dictionary "lock.setConfig" = Some setConfig
  /\ Get kCommand_Parameters request
     = Some (DictionaryValue {[ "lockedState" := StringValue "locked" ]})
  /\ (exists c,
        instance (FromJson (DictionaryValue request) kCloud dictionary None)
        = Some c
        /\ id_ c = "1" /\ status_ c = kQueued
        /\ parameters_ c = {[ "lockedState" := "locked" ]})
  /\ error_out (FromJson (DictionaryValue request) kCloud dictionary None)
     = None.
Proof.
  assert (Hname : GetString kCommand_Name request = Some "lock.setConfig")
    by (vm_compute; reflexivity).
  assert (Hfind : FindCommand dictionary "lock.setConfig" = Some setConfig)
    by (vm_compute; reflexivity).
  assert (Hdoc : Get kCommand_Parameters request
                 = Some (DictionaryValue
                           {[ "lockedState" := StringValue "locked" ]}))
    by (vm_compute; reflexivity).
  assert (Hparse : TypedValueFromJson
                     ({[ "lockedState" := StringValue "locked" ]} : Dictionary)
                     (GetParameters setConfig) None
                   = inl {[ "lockedState" := "locked" ]})
    by (vm_compute; reflexivity).
  destruct (FromJson_success request kCloud dictionary None "lock.setConfig"
              setConfig _ _ Hname Hfind (or_intror Hdoc) Hparse)
    as (Hresult & _).
  split; [exact Hname|]. split; [exact Hfind|]. split; [exact Hdoc|].
  rewrite Hresult. simpl. split; [|reflexivity].
  eexists. split; [reflexivity|].
  split; [vm_compute; reflexivity|]. split; reflexivity.
Defined.

Lemma FromJson_first_defect_witness :
  instance (FromJson (DictionaryValue malformed_request) kCloud dictionary None)
  = None
  /\ exists e,
       error_out (FromJson (DictionaryValue malformed_request) kCloud
                    dictionary None) = Some e
       /\ GetCode e = kCommandFailed.
Proof.
  assert (Hnone : instance (FromJson (DictionaryValue malformed_request)
                              kCloud dictionary None) = None)
    by (vm_compute; reflexivity).
  destruct (FromJson_first_defect (DictionaryValue malformed_request) kCloud
              dictionary None Hnone) as (e & He & _).
  split; [exact Hnone|]. exists e. split; [exact He|].
  vm_compute in He. injection He as <-. reflexivity.
Defined.

Lemma handler_aborts_on_bad_state_witness :
  GetString "lockedState" (Command.GetParameters (this (on ajar_command)))
    ≫= StringToEnum LockHandler.kLockMapMethod = None
  /\ IsTerminal (status_ (this (on ajar_command))) = false
  /\ LockHandler.OnLockSetConfig LockHandler.new_LockHandler
       (Some (on ajar_command))
     = (LockHandler.new_LockHandler,
        Some (on (with_status kAborted
                    (with_error LockHandler.InvalidParameters ajar_command)))).
Proof.
  assert (Hbad : GetString "lockedState"
                   (Command.GetParameters (this (on ajar_command)))
                   ≫= StringToEnum LockHandler.kLockMapMethod = None)
    by (vm_compute; reflexivity).
  split; [exact Hbad|]. split; [reflexivity|].
  rewrite (handler_aborts_on_bad_state LockHandler.new_LockHandler
             (on ajar_command) Hbad eq_refl).
  reflexivity.
Defined.

Lemma handler_completes_witness :
  GetString "lockedState" (Command.GetParameters (this (on unlock_command)))
  = Some "unlocked"
  /\ StringToEnum LockHandler.kLockMapMethod "unlocked"
     = Some LockHandler.kUnlocked
  /\ LockHandler.lock_state_
       (LockHandler.OnLockSetConfig LockHandler.new_LockHandler
          (Some (on unlock_command))).1
     = LockHandler.kUnlocked
  /\ LockHandler.state_updates
       (LockHandler.OnLockSetConfig LockHandler.new_LockHandler
          (Some (on unlock_command))).1
     = [ {[ "lock" := DictionaryValue
                        {[ "lockedState" := StringValue "unlocked" ]} ]} ]
  /\ exists cmd',
       (LockHandler.OnLockSetConfig LockHandler.new_LockHandler
          (Some (on unlock_command))).2 = Some cmd'
       /\ status_ (this cmd') = kDone.
Proof.
  assert (Hname : GetString "lockedState"
                    (Command.GetParameters (this (on unlock_command)))
                  = Some "unlocked")
    by (vm_compute; reflexivity).
  assert (Hstate : StringToEnum LockHandler.kLockMapMethod "unlocked"
                   = Some LockHandler.kUnlocked)
    by reflexivity.
  assert (Hvalid : TypedValueFromJson (∅ : Dictionary) (GetResults setConfig)
                     None = inl (∅ : gmap string string))
    by (vm_compute; reflexivity).
  destruct (handler_completes LockHandler.new_LockHandler (on unlock_command)
              "unlocked" LockHandler.kUnlocked setConfig ∅ Hname Hstate)
    as (Hlock & Hupdates & Hdone).
  destruct (Hdone eq_refl eq_refl Hvalid) as (cmd' & Hcmd & Hst & _).
  split; [exact Hname|]. split; [exact Hstate|]. split; [exact Hlock|].
  split; [exact Hupdates|].
  exists cmd'. split; [exact Hcmd | exact Hst].
Defined.

Lemma FromJson_reads_three_fields_witness :
  request !! "id" = annotated_request !! "id"
  /\ request !! "name" = annotated_request !! "name"
  /\ request !! "parameters" = annotated_request !! "parameters"
  /\ request <> annotated_request
  /\ FromJson (DictionaryValue request) kCloud dictionary None
     = FromJson (DictionaryValue annotated_request) kCloud dictionary None.
Proof.
  assert (Hid : request !! "id" = annotated_request !! "id")
    by (vm_compute; reflexivity).
  assert (Hname : request !! "name" = annotated_request !! "name")
    by (vm_compute; reflexivity).
  assert (Hparams : request !! "parameters" = annotated_request !! "parameters")
    by (vm_compute; reflexivity).
  split; [exact Hid|]. split; [exact Hname|]. split; [exact Hparams|].
  split.
  - intros Heq.
    apply (f_equal (fun m : Dictionary => m !! "comment")) in Heq.
    vm_compute in Heq. discriminate.
  - exact (FromJson_reads_three_fields request annotated_request kCloud
             dictionary None Hid Hname Hparams).
Defined.

(** "caf" followed by U+00E9: two bytes are added. *)
Lemma WriteUnicodeCharacter_appends_witness :
  (0x7f < 0xe9)%Z
  /\ utf_string_conversion_utils.WriteUnicodeCharacter 4
       utf_string_conversion_utils.utf8_append 64 0xe9 [0x63; 0x61; 0x66]%Z
     = (2%Z, [0x63; 0x61; 0x66; 0xc3; 0xa9]%Z).
Proof.
  split; [reflexivity|].
  refine (proj1 (proj2 (WriteUnicodeCharacter_appends 4
                          utf_string_conversion_utils.utf8_append 64
                          0xe9%Z [0x63; 0x61; 0x66]%Z) _ _ _ _)).
  - reflexivity.
  - reflexivity.
  - vm_compute. split; apply le_S_n; repeat constructor.
  - reflexivity.
Defined.
